(** * Path confinement of the Obsidian vault server (src/index.ts)

    A shallow embedding of [validatePath] and of the tool handlers built on
    it.  JavaScript strings are modelled as [string] (sequences of 8-bit code
    units); the POSIX flavour of Node's [path] module is modelled on path
    segments; the asynchronous filesystem calls are the nodes of a small
    program monad that is interpreted against any [FileSystem]. *)

From Stdlib Require Import String Ascii List Bool Arith Lia DecimalString.
Import ListNotations.
Local Open Scope list_scope.
Local Open Scope string_scope.

Set Implicit Arguments.

(** ** JavaScript string primitives *)

Module Js.

(** [s.startsWith(pre)] *)
Fixpoint startsWith (s pre : string) {struct pre} : bool :=
  match pre with
  | EmptyString => true
  | String a pre' =>
      match s with
      | EmptyString => false
      | String b s' => andb (Ascii.eqb a b) (startsWith s' pre')
      end
  end.

(** [s.split(sep)] for a one-character separator: never the empty list. *)
Fixpoint split (sep : ascii) (s : string) : list string :=
  match s with
  | EmptyString => [EmptyString]
  | String c s' =>
      if Ascii.eqb c sep then EmptyString :: split sep s'
      else match split sep s' with
           | [] => [String c EmptyString]
           | seg :: segs => String c seg :: segs
           end
  end.

(** [l.join(sep)] *)
Definition join (sep : string) (l : list string) : string := String.concat sep l.

(** [l.some(f)] *)
Definition some {A} (f : A -> bool) (l : list A) : bool := existsb f l.

(** [s.slice(n)] for [0 <= n] *)
Fixpoint slice_from (n : nat) (s : string) : string :=
  match n, s with
  | O, _ => s
  | S _, EmptyString => EmptyString
  | S n', String _ s' => slice_from n' s'
  end.

(** [s.slice(0, n)] for [0 <= n] *)
Fixpoint slice_to (n : nat) (s : string) : string :=
  match n, s with
  | O, _ => EmptyString
  | S _, EmptyString => EmptyString
  | S n', String c s' => String c (slice_to n' s')
  end.

Definition lower_char (c : ascii) : ascii :=
  let n := nat_of_ascii c in
  if andb (Nat.leb 65 n) (Nat.leb n 90) then ascii_of_nat (n + 32) else c.

(** [s.toLowerCase()]: the letters A-Z are folded, every other code unit is
    left as it is.  That is what JavaScript does on ASCII strings (see
    [is_ascii] below); what is proved of matching by lower case is stated
    for those. *)
Fixpoint toLowerCase (s : string) : string :=
  match s with
  | EmptyString => EmptyString
  | String c s' => String (lower_char c) (toLowerCase s')
  end.

(** No code unit of [s] is the separator. *)
Fixpoint sep_free (sep : ascii) (s : string) : Prop :=
  match s with
  | EmptyString => True
  | String c s' => Ascii.eqb c sep = false /\ sep_free sep s'
  end.

(** [s.includes(sub)] *)
Fixpoint includes (s sub : string) : bool :=
  orb (startsWith s sub)
      match s with
      | EmptyString => false
      | String _ s' => includes s' sub
      end.

(** [s.endsWith(suffix)] *)
Definition endsWith (s suffix : string) : bool :=
  andb (Nat.leb (String.length suffix) (String.length s))
       (String.eqb (slice_from (String.length s - String.length suffix) s) suffix).

(** [s.replace(pattern, "")] for a string [pattern]: its first occurrence is
    taken out. *)
Fixpoint remove_first (s pattern : string) : string :=
  if startsWith s pattern then slice_from (String.length pattern) s
  else match s with
       | EmptyString => EmptyString
       | String c s' => String c (remove_first s' pattern)
       end.

(** [s.replace(/[*]/g, ".*")] *)
Fixpoint stars_to_wildcards (s : string) : string :=
  match s with
  | EmptyString => EmptyString
  | String c s' =>
      if Ascii.eqb c "*"%char then "." ++ String c (stars_to_wildcards s')
      else String c (stars_to_wildcards s')
  end.

(** Every code unit of [s] is below 128.  On such strings [s.toLowerCase()]
    is the fold of the letters A-Z that [toLowerCase] computes; beyond them
    JavaScript folds further letters, some by their neighbours. *)
Fixpoint is_ascii (s : string) : bool :=
  match s with
  | EmptyString => true
  | String c s' => andb (Nat.ltb (nat_of_ascii c) 128) (is_ascii s')
  end.

(** Template-literal rendering of a non-negative integer. *)
Definition of_nat (n : nat) : string := NilZero.string_of_uint (Nat.to_uint n).

End Js.

(** ** Node's [path] module, POSIX flavour *)

Module Path.

Definition sep : ascii := "/"%char.

Definition starts_with_slash (p : string) : bool :=
  match p with
  | String c _ => Ascii.eqb c sep
  | EmptyString => false
  end.

Fixpoint ends_with_slash (p : string) : bool :=
  match p with
  | EmptyString => false
  | String c EmptyString => Ascii.eqb c sep
  | String _ p' => ends_with_slash p'
  end.

(** One step of [normalizeString]: [stack] holds the segments kept so far,
    innermost first. *)
Definition normalize_step (allowAboveRoot : bool) (stack : list string)
    (seg : string) : list string :=
  if String.eqb seg EmptyString then stack
  else if String.eqb seg "." then stack
  else if String.eqb seg ".." then
    match stack with
    | top :: rest =>
        if String.eqb top ".." then
          (if allowAboveRoot then ".." :: stack else stack)
        else rest
    | [] => if allowAboveRoot then [".."] else []
    end
  else seg :: stack.

(** [normalizeString(path, allowAboveRoot, "/", isPosixPathSeparator)] *)
Definition normalizeString (p : string) (allowAboveRoot : bool) : string :=
  Js.join "/"
    (rev (fold_left (normalize_step allowAboveRoot) (Js.split sep p) [])).

(** [path.isAbsolute(p)] *)
Definition isAbsolute (p : string) : bool := starts_with_slash p.

(** [path.normalize(p)] *)
Definition normalize (p : string) : string :=
  match p with
  | EmptyString => "."
  | _ =>
      let isAbs := starts_with_slash p in
      let trailingSeparator := ends_with_slash p in
      let q := normalizeString p (negb isAbs) in
      match q with
      | EmptyString =>
          if isAbs then "/" else if trailingSeparator then "./" else "."
      | _ =>
          let q' := if trailingSeparator then q ++ "/" else q in
          if isAbs then "/" ++ q' else q'
      end
  end.

(** The accumulation loop of [path.join]: empty arguments are skipped. *)
Fixpoint join_args (joined : option string) (args : list string) : option string :=
  match args with
  | [] => joined
  | arg :: args' =>
      match arg with
      | EmptyString => join_args joined args'
      | _ =>
          join_args
            (match joined with
             | None => Some arg
             | Some j => Some (j ++ "/" ++ arg)
             end) args'
      end
  end.

(** [path.join(...args)] *)
Definition join (args : list string) : string :=
  match join_args None args with
  | None => "."
  | Some joined => normalize joined
  end.

(** The right-to-left loop of [path.resolve]: [paths] is the argument list
    reversed and followed by the working directory. *)
Fixpoint resolve_loop (paths : list string) (resolvedPath : string)
    : string * bool :=
  match paths with
  | [] => (resolvedPath, false)
  | p :: paths' =>
      match p with
      | EmptyString => resolve_loop paths' resolvedPath
      | _ =>
          let resolvedPath' := p ++ "/" ++ resolvedPath in
          if starts_with_slash p then (resolvedPath', true)
          else resolve_loop paths' resolvedPath'
      end
  end.

(** [path.resolve(...args)] in a process whose working directory is [cwd] *)
Definition resolve (cwd : string) (args : list string) : string :=
  let '(resolvedPath, resolvedAbsolute) := resolve_loop (rev args ++ [cwd])%list EmptyString in
  let q := normalizeString resolvedPath (negb resolvedAbsolute) in
  if resolvedAbsolute then "/" ++ q
  else match q with EmptyString => "." | _ => q end.

(** The backwards scan of [path.dirname] over the code units at indices
    [i, i-1, ..., 1], given here last one first. *)
Fixpoint dirname_end (backwards : list ascii) (i : nat) (matchedSlash : bool)
    : option nat :=
  match backwards with
  | [] => None
  | c :: rest =>
      if Ascii.eqb c sep then
        (if matchedSlash then dirname_end rest (pred i) true else Some i)
      else dirname_end rest (pred i) false
  end.

(** [path.dirname(p)] *)
Definition dirname (p : string) : string :=
  match p with
  | EmptyString => "."
  | String _ tail =>
      let hasRoot := starts_with_slash p in
      match dirname_end (rev (list_ascii_of_string tail)) (String.length tail) true with
      | None => if hasRoot then "/" else "."
      | Some e =>
          if andb hasRoot (Nat.eqb e 1) then "//" else Js.slice_to e p
      end
  end.

End Path.

(** ** Programs over the filesystem

    An [async] function is a tree of the filesystem calls it awaits.  A
    rejected promise and a [throw] are the same thing under [await]: the
    program ends in [Throw] with the message of the [Error]. *)

Inductive result (A : Type) : Type :=
| Ok (a : A)
| Err (message : string).
Arguments Ok {A} a.
Arguments Err {A} message.

Inductive prog (A : Type) : Type :=
| Ret (a : A)
| Throw (message : string)
| Realpath (p : string) (k : result string -> prog A)
| ReadFile (p : string) (k : result string -> prog A)
| WriteFile (p content : string) (k : result unit -> prog A).
Arguments Ret {A} a.
Arguments Throw {A} message.
Arguments Realpath {A} p k.
Arguments ReadFile {A} p k.
Arguments WriteFile {A} p content k.

Definition settle {A} (r : result A) : prog A :=
  match r with
  | Ok a => Ret a
  | Err e => Throw e
  end.

Fixpoint bind {A B} (m : prog A) (f : A -> prog B) : prog B :=
  match m with
  | Ret a => f a
  | Throw e => Throw e
  | Realpath p k => Realpath p (fun r => bind (k r) f)
  | ReadFile p k => ReadFile p (fun r => bind (k r) f)
  | WriteFile p c k => WriteFile p c (fun r => bind (k r) f)
  end.

(** [try { m } catch (error) { handler(error.message) }] *)
Fixpoint try_catch {A} (m : prog A) (handler : string -> prog A) : prog A :=
  match m with
  | Ret a => Ret a
  | Throw e => handler e
  | Realpath p k => Realpath p (fun r => try_catch (k r) handler)
  | ReadFile p k => ReadFile p (fun r => try_catch (k r) handler)
  | WriteFile p c k => WriteFile p c (fun r => try_catch (k r) handler)
  end.

Declare Scope prog_scope.
Delimit Scope prog_scope with prog.
Notation "x <- m ;; k" := (bind m (fun x => k))
  (at level 61, m at next level, right associativity) : prog_scope.
Notation "m ;;; k" := (bind m (fun _ => k))
  (at level 61, right associativity) : prog_scope.
Local Open Scope prog_scope.

(** [await fs.realpath(p)], [await fs.readFile(p, "utf-8")] and
    [await fs.writeFile(p, content, "utf-8")] *)
Definition realpath (p : string) : prog string := Realpath p settle.
Definition readFile (p : string) : prog string := ReadFile p settle.
Definition writeFile (p content : string) : prog unit := WriteFile p content settle.

(** [await Promise.all(l.map(f))]: the results come in the order of [l]. *)
Fixpoint mapM {A B} (f : A -> prog B) (l : list A) : prog (list B) :=
  match l with
  | [] => Ret []
  | a :: l' => b <- f a ;; bs <- mapM f l' ;; Ret (b :: bs)
  end.

(** What [node:fs/promises] offers to the server: each call answers with a
    value or with the message of the error it rejects with; a write, failed
    or not, also leaves a filesystem behind. *)
Class FileSystem (FS : Type) : Type := {
  fs_realpath : FS -> string -> result string;
  fs_readFile : FS -> string -> result string;
  fs_writeFile : FS -> string -> string -> result unit * FS
}.

(** Running a program against a filesystem state. *)
Fixpoint run {FS} `{FileSystem FS} {A} (m : prog A) (fs : FS) : result A * FS :=
  match m with
  | Ret a => (Ok a, fs)
  | Throw e => (Err e, fs)
  | Realpath p k => run (k (fs_realpath fs p)) fs
  | ReadFile p k => run (k (fs_readFile fs p)) fs
  | WriteFile p c k =>
      let '(r, fs') := fs_writeFile fs p c in run (k r) fs'
  end.

(** The filesystem calls a program makes on a given state, in order. *)
Inductive fs_call : Type :=
| CallRealpath (p : string)
| CallReadFile (p : string)
| CallWriteFile (p content : string).

Fixpoint calls {FS} `{FileSystem FS} {A} (m : prog A) (fs : FS) : list fs_call :=
  match m with
  | Ret _ | Throw _ => []
  | Realpath p k => CallRealpath p :: calls (k (fs_realpath fs p)) fs
  | ReadFile p k => CallReadFile p :: calls (k (fs_readFile fs p)) fs
  | WriteFile p c k =>
      CallWriteFile p c ::
      (let '(r, fs') := fs_writeFile fs p c in calls (k r) fs')
  end.

(** ** The server *)

Definition nl : string := String (ascii_of_nat 10) EmptyString.

(** Maximum number of search results to return *)
Definition SEARCH_LIMIT : nat := 200.

(** The payload a tool call hands back to the transport; [isError] is absent
    from a successful payload, which is [false] here. *)
Record response : Type := { text : string; isError : bool }.

(** The four tool calls, with arguments that passed their schema. *)
Inductive request : Type :=
| obsidian_read_notes_req (paths : list string)
| obsidian_search_notes_req (query : string)
| obsidian_read_notes_dir_req (path : string)
| obsidian_write_note_req (path content : string).

(** An error of the [AccessDenied] kind is an [Error] whose message begins
    with "Access denied". *)
Definition is_access_denied (message : string) : bool :=
  Js.startsWith message "Access denied".

Section Server.

(** [process.cwd()], [os.homedir()] and [process.env.OBSIDIAN_VAULT_PATH] *)
Variables (cwd homedir obsidianVaultPath : string).

Definition normalizePath (p : string) : string :=
  Js.toLowerCase (Path.normalize p).

Definition expandHome (filepath : string) : string :=
  if orb (Js.startsWith filepath "~/") (String.eqb filepath "~")
  then Path.join [homedir; Js.slice_from 1 filepath]
  else filepath.

(** Allowed directories, stored in normalized form *)
Definition vaultDirectories : list string :=
  [normalizePath (Path.resolve cwd [expandHome obsidianVaultPath])].

(** [vaultDirectories[0]] *)
Definition vaultDirectories_0 : string := nth 0 vaultDirectories EmptyString.

(** [vaultDirectories.some((dir) => normalized.startsWith(dir))] *)
Definition isAllowed (normalized : string) : bool :=
  Js.some (fun dir => Js.startsWith normalized dir) vaultDirectories.

(** [requestedPath.split(path.sep).some((part) => part.startsWith("."))] *)
Definition hasHiddenPart (requestedPath : string) : bool :=
  Js.some (fun part => Js.startsWith part ".") (Js.split Path.sep requestedPath).

(** The [absolute] of [validatePath] *)
Definition absolutePath (requestedPath : string) : string :=
  let expandedPath := expandHome requestedPath in
  if Path.isAbsolute expandedPath
  then Path.resolve cwd [expandedPath]
  else Path.resolve cwd [cwd; expandedPath].

Definition validatePath (requestedPath : string) : prog string :=
  if hasHiddenPart requestedPath then
    Throw "Access denied - hidden files/directories not allowed"
  else
    let absolute := absolutePath requestedPath in
    let normalizedRequested := normalizePath absolute in
    if negb (isAllowed normalizedRequested) then
      Throw ("Access denied - path outside allowed directories: " ++ absolute
             ++ " not in " ++ Js.join ", " vaultDirectories)
    else
      try_catch
        (realPath <- realpath absolute ;;
         let normalizedReal := normalizePath realPath in
         if negb (isAllowed normalizedReal) then
           Throw "Access denied - symlink target outside allowed directories"
         else Ret realPath)
        (fun _ =>
           let parentDir := Path.dirname absolute in
           try_catch
             (realParentPath <- realpath parentDir ;;
              let normalizedParent := normalizePath realParentPath in
              if negb (isAllowed normalizedParent) then
                Throw "Access denied - parent directory outside allowed directories"
              else Ret absolute)
             (fun _ => Throw ("Parent directory does not exist: " ++ parentDir))).

(** One element of the [Promise.all] of the [obsidian_read_notes] case. *)
Definition read_note (filePath : string) : prog string :=
  try_catch
    (validPath <- validatePath (Path.join [vaultDirectories_0; filePath]) ;;
     content <- readFile validPath ;;
     Ret (filePath ++ ":" ++ nl ++ content ++ nl))
    (fun errorMessage => Ret (filePath ++ ": Error - " ++ errorMessage)).

(** [results] of the [obsidian_read_notes] case.  The reads are started
    together; none of them writes, so they are run here one after the other. *)
Definition read_notes_results (paths : list string) : prog (list string) :=
  mapM read_note paths.

Definition obsidian_read_notes (paths : list string) : prog response :=
  results <- read_notes_results paths ;;
  Ret {| text := Js.join (nl ++ "---" ++ nl) results; isError := false |}.

(** The text the [obsidian_search_notes] case builds from [results]. *)
Definition search_notes_text (results : list string) : string :=
  let limitedResults := firstn SEARCH_LIMIT results in
  (if Nat.ltb 0 (length limitedResults)
   then Js.join nl limitedResults
   else "No matches found")
  ++ (if Nat.ltb SEARCH_LIMIT (length results)
      then nl ++ nl ++ "... " ++ Js.of_nat (length results - SEARCH_LIMIT)
           ++ " more results not shown."
      else EmptyString).

Definition obsidian_write_note (path content : string) : prog response :=
  try_catch
    (validPath <- validatePath (Path.join [vaultDirectories_0; path]) ;;
     writeFile validPath content ;;;
     Ret {| text := "Note successfully written to " ++ path; isError := false |})
    (fun _ =>
       Ret {| text := "Please specify the target directory. Available directories:"
                      ++ nl ++ Js.join nl vaultDirectories;
              isError := true |}).

Section Dispatch.

(** The two directory walks, [searchNotes] and [listDirs], decide nothing
    below and are left to the caller. *)
Variable searchNotes : string -> prog (list string).
Variable listDirs : string -> prog (list string).

Definition obsidian_search_notes (query : string) : prog response :=
  results <- searchNotes query ;;
  Ret {| text := search_notes_text results; isError := false |}.

Definition obsidian_read_notes_dir (path : string) : prog response :=
  validPath <- validatePath (Path.join [vaultDirectories_0; path]) ;;
  dirs <- listDirs validPath ;;
  Ret {| text := Js.join nl dirs; isError := false |}.

(** The [CallToolRequestSchema] handler *)
Definition call_tool (req : request) : prog response :=
  try_catch
    (match req with
     | obsidian_read_notes_req paths => obsidian_read_notes paths
     | obsidian_search_notes_req query => obsidian_search_notes query
     | obsidian_read_notes_dir_req path => obsidian_read_notes_dir path
     | obsidian_write_note_req path content => obsidian_write_note path content
     end)
    (fun errorMessage =>
       Ret {| text := "Error: " ++ errorMessage; isError := true |}).

End Dispatch.

End Server.

(** ** What the operations settle to

    Pure readings of the programs above on a given filesystem state; the
    lemmas of the second part show that the programs compute them. *)

Section Outcomes.

Variables (cwd homedir obsidianVaultPath : string).
Context {FS : Type} `{FileSystem FS}.

Local Abbreviation isAllowed' := (isAllowed cwd homedir obsidianVaultPath).
Local Abbreviation absolutePath' := (absolutePath cwd homedir).

(** The [catch] branch of [validatePath]: the parent directory of the
    requested path decides. *)
Definition parent_outcome (fs : FS) (absolute : string) : result string :=
  let parentDir := Path.dirname absolute in
  match fs_realpath fs parentDir with
  | Ok realParentPath =>
      if isAllowed' (normalizePath realParentPath) then Ok absolute
      else Err ("Parent directory does not exist: " ++ parentDir)
  | Err _ => Err ("Parent directory does not exist: " ++ parentDir)
  end.

(** What [validatePath] settles to on a given filesystem. *)
Definition validatePath_outcome (fs : FS) (requestedPath : string) : result string :=
  if hasHiddenPart requestedPath then
    Err "Access denied - hidden files/directories not allowed"
  else
    let absolute := absolutePath' requestedPath in
    if isAllowed' (normalizePath absolute) then
      match fs_realpath fs absolute with
      | Ok realPath =>
          if isAllowed' (normalizePath realPath) then Ok realPath
          else parent_outcome fs absolute
      | Err _ => parent_outcome fs absolute
      end
    else
      Err ("Access denied - path outside allowed directories: " ++ absolute
           ++ " not in " ++ Js.join ", " (vaultDirectories cwd homedir obsidianVaultPath)).

(** The fragment [obsidian_read_notes] produces for one path: the content
    of the note under its path, or the message of whatever failed. *)
Definition read_note_fragment (fs : FS) (filePath : string) : string :=
  match validatePath_outcome fs
          (Path.join [vaultDirectories_0 cwd homedir obsidianVaultPath; filePath]) with
  | Ok validPath =>
      match fs_readFile fs validPath with
      | Ok content => filePath ++ ":" ++ nl ++ content ++ nl
      | Err errorMessage => filePath ++ ": Error - " ++ errorMessage
      end
  | Err errorMessage => filePath ++ ": Error - " ++ errorMessage
  end.

End Outcomes.

(** How paths name files: a real path names the same file as the path it
    resolves, and writing a file moves nothing that resolved before.  Whether
    a file gives back what was written to it is no law: a device does not,
    and the text codec need not carry every string. *)
Class FileSystemLaws (FS : Type) {F : FileSystem FS} : Prop := {
  realpath_names_same_file : forall (fs : FS) (p r content : string),
    fs_realpath fs p = Ok r ->
    fs_readFile fs p = Ok content -> fs_readFile fs r = Ok content;
  realpath_stable_under_write : forall (fs fs' : FS) (p content q r : string),
    fs_writeFile fs p content = (Ok tt, fs') ->
    fs_realpath fs q = Ok r -> fs_realpath fs' q = Ok r
}.
Arguments FileSystemLaws FS {F}.

(** ** An in-memory filesystem with symbolic links

    A tree of regular files, directories and symbolic links, kept as a table
    from absolute paths (no trailing separator) to nodes; a later binding is
    shadowed by an earlier one.  The root directory is always there.  Paths
    are resolved from the root, one component at a time, and at most
    [max_links] symbolic links are followed. *)

Module MemFS.

Inductive node : Type :=
| File (content : string)
| Dir
| Symlink (target : string).

Definition t : Type := list (string * node).

Fixpoint lookup (fs : t) (k : string) : option node :=
  match fs with
  | [] => None
  | (k', n) :: fs' => if String.eqb k k' then Some n else lookup fs' k
  end.

(** A resolved location: its components, innermost first. *)
Definition render (cur : list string) : string := "/" ++ Js.join "/" (rev cur).

Inductive outcome : Type :=
| Found (cur : list string)
| Missing (cur : list string)
| Fail (message : string).

Definition is_blank (seg : string) : bool :=
  orb (String.eqb seg EmptyString) (String.eqb seg ".").

Fixpoint walk (links : nat) (fs : t) : list string -> list string -> outcome :=
  fix go (cur rest : list string) {struct rest} : outcome :=
    match rest with
    | [] => Found cur
    | seg :: rest' =>
        if is_blank seg then go cur rest'
        else if String.eqb seg ".." then go (tl cur) rest'
        else
          let here := seg :: cur in
          match lookup fs (render here) with
          | None =>
              match rest' with
              | [] => Missing here
              | _ => Fail "ENOENT: no such file or directory"
              end
          | Some Dir => go here rest'
          | Some (File _) =>
              match rest' with
              | [] => Found here
              | _ => Fail "ENOTDIR: not a directory"
              end
          | Some (Symlink target) =>
              match links with
              | O => Fail "ELOOP: too many symbolic links encountered"
              | S links' =>
                  walk links' fs
                    (if Path.starts_with_slash target then [] else cur)
                    (Js.split Path.sep target ++ rest')%list
              end
          end
    end.

Definition max_links : nat := 40.

Definition resolve (fs : t) (p : string) : outcome :=
  walk max_links fs [] (Js.split Path.sep p).

Definition quoted (p : string) : string := "'" ++ p ++ "'".

Definition realpath (fs : t) (p : string) : result string :=
  match resolve fs p with
  | Found cur => Ok (render cur)
  | Missing _ => Err ("ENOENT: no such file or directory, realpath " ++ quoted p)
  | Fail e => Err (e ++ ", realpath " ++ quoted p)
  end.

Definition readFile (fs : t) (p : string) : result string :=
  match resolve fs p with
  | Found (seg :: cur) =>
      match lookup fs (render (seg :: cur)) with
      | Some (File content) => Ok content
      | _ => Err "EISDIR: illegal operation on a directory, read"
      end
  | Found [] => Err "EISDIR: illegal operation on a directory, read"
  | Missing _ => Err ("ENOENT: no such file or directory, open " ++ quoted p)
  | Fail e => Err (e ++ ", open " ++ quoted p)
  end.

Definition writeFile (fs : t) (p content : string) : result unit * t :=
  match resolve fs p with
  | Found (seg :: cur) =>
      match lookup fs (render (seg :: cur)) with
      | Some (File _) => (Ok tt, (render (seg :: cur), File content) :: fs)
      | _ => (Err ("EISDIR: illegal operation on a directory, open " ++ quoted p), fs)
      end
  | Found [] => (Err ("EISDIR: illegal operation on a directory, open " ++ quoted p), fs)
  | Missing cur => (Ok tt, (render cur, File content) :: fs)
  | Fail e => (Err (e ++ ", open " ++ quoted p), fs)
  end.

(** A component that names an entry: not blank, not "..", no separator. *)
Definition entry_name (seg : string) : Prop :=
  is_blank seg = false /\ String.eqb seg ".." = false /\ Js.sep_free Path.sep seg.

(** Every component of [cur] names a directory of [fs] inside the one before. *)
Fixpoint dir_chain (fs : t) (cur : list string) : Prop :=
  match cur with
  | [] => True
  | seg :: cur' =>
      entry_name seg /\ lookup fs (render cur) = Some Dir /\ dir_chain fs cur'
  end.

(** [cur] is a real location of [fs]: a directory, or a regular file in one. *)
Definition real (fs : t) (cur : list string) : Prop :=
  dir_chain fs cur
  \/ match cur with
     | [] => False
     | seg :: cur' =>
         entry_name seg
         /\ (exists content, lookup fs (render cur) = Some (File content))
         /\ dir_chain fs cur'
     end.

(** Nothing but a regular file may be bound to [k]. *)
Definition writable (fs : t) (k : string) : Prop :=
  lookup fs k = None \/ exists content, lookup fs k = Some (File content).

End MemFS.

#[export] Instance memfs_FileSystem : FileSystem MemFS.t := {
  fs_realpath := MemFS.realpath;
  fs_readFile := MemFS.readFile;
  fs_writeFile := MemFS.writeFile
}.

(** A vault at /vault with a note, a sub-directory, a link to a file outside
    the vault and a link to a directory outside it. *)
Definition demo_fs : MemFS.t :=
  [ ("/vault", MemFS.Dir);
    ("/vault/a.md", MemFS.File "alpha");
    ("/vault/notes", MemFS.Dir);
    ("/vault/notes/b.md", MemFS.File "beta");
    ("/vault/link", MemFS.Symlink "/etc/passwd");
    ("/vault/out", MemFS.Symlink "/etc");
    ("/etc", MemFS.Dir);
    ("/etc/passwd", MemFS.File "root:x:0:0") ].

(** ** A filesystem with a null device

    The in-memory filesystem with one character device in it: whatever
    resolves to /dev/null takes every write and keeps nothing, and reads as
    the empty string. *)

Module NullFS.

Record t : Type := mount { tree : MemFS.t }.

Definition null : string := "/dev/null".

(** [p] resolves to the device. *)
Definition is_null (fs : t) (p : string) : bool :=
  match MemFS.realpath (tree fs) p with
  | Ok r => String.eqb r null
  | Err _ => false
  end.

Definition realpath (fs : t) (p : string) : result string :=
  MemFS.realpath (tree fs) p.

Definition readFile (fs : t) (p : string) : result string :=
  if is_null fs p then Ok EmptyString else MemFS.readFile (tree fs) p.

Definition writeFile (fs : t) (p content : string) : result unit * t :=
  if is_null fs p then (Ok tt, fs)
  else let '(r, tree') := MemFS.writeFile (tree fs) p content in (r, mount tree').

End NullFS.

#[export] Instance nullfs_FileSystem : FileSystem NullFS.t := {
  fs_realpath := NullFS.realpath;
  fs_readFile := NullFS.readFile;
  fs_writeFile := NullFS.writeFile
}.


(** The vault of the examples beside a directory whose name begins like
    its own. *)
Definition demo_fs_sibling : MemFS.t :=
  ("/vault2", MemFS.Dir) :: ("/vault2/secret.md", MemFS.File "secret") :: demo_fs.

(** ** Normal forms of paths

    What [path.normalize] and [path.resolve] produce, described on segments. *)

Module Normal.

(** A segment that names an entry: not empty, not "." or "..", and without a
    separator. *)
Definition plain (seg : string) : Prop :=
  seg <> EmptyString /\ seg <> "." /\ seg <> ".." /\ Js.sep_free Path.sep seg.

(** A segment that takes room in a path: not empty, no separator. *)
Definition solid (seg : string) : Prop :=
  seg <> EmptyString /\ Js.sep_free Path.sep seg.

(** The absolute path made of the given segments. *)
Definition rooted (segs : list string) : string := "/" ++ Js.join "/" segs.

(** The stacks [normalizeString] keeps (innermost segment first): names, on
    top of ".." segments when the path may climb above where it starts. *)
Definition normal_stack (allowAboveRoot : bool) (stack : list string) : Prop :=
  exists names k,
    stack = (names ++ repeat ".." k)%list
    /\ Forall plain names
    /\ (allowAboveRoot = false -> k = 0).

(** What [path.normalize] puts together from the segments it kept. *)
Definition assemble (isAbs trailingSeparator : bool) (stack : list string) : string :=
  match Js.join "/" (rev stack) with
  | EmptyString =>
      if isAbs then "/" else if trailingSeparator then "./" else "."
  | String _ _ as q =>
      let q' := if trailingSeparator then q ++ "/" else q in
      if isAbs then "/" ++ q' else q'
  end.

(** The strings [path.normalize] returns. *)
Definition normal_form (p : string) : Prop :=
  exists isAbs trailingSeparator stack,
    normal_stack (negb isAbs) stack
    /\ p = assemble isAbs trailingSeparator stack.

End Normal.

(** ** The directory walks

    [searchNotes] and the [listDirs] of the [obsidian_read_notes_dir] case
    read directories with [fs.readdir(dir, { withFileTypes: true })] and go
    down into the entries that are directories.  The answers of [readdir]
    are given as a tree: an entry that is no directory, a directory with the
    entries read from it, or a directory whose reading is rejected.  Every
    [try] of the walks catches whatever its body throws (and logs it), so an
    entry either adds to the results or leaves them as they are. *)

#[local] Set Warnings "-register-all".

Inductive dirent : Type :=
| Other (name : string)
| Directory (name : string) (entries : list dirent)
| Unreadable (name : string) (message : string).

(** [entry.name] *)
Definition dirent_name (entry : dirent) : string :=
  match entry with
  | Other name | Directory name _ | Unreadable name _ => name
  end.

(** [entry.isDirectory()] *)
Definition dirent_isDirectory (entry : dirent) : bool :=
  match entry with
  | Other _ => false
  | Directory _ _ | Unreadable _ _ => true
  end.

(** Every name in the tree is what [readdir] hands out: a plain segment. *)
Inductive well_named : dirent -> Prop :=
| well_named_Other name : Normal.plain name -> well_named (Other name)
| well_named_Directory name entries :
    Normal.plain name -> Forall well_named entries ->
    well_named (Directory name entries)
| well_named_Unreadable name message :
    Normal.plain name -> well_named (Unreadable name message).

(** The names from a listing down to one of the entries below it. *)
Inductive chain_to (entries : list dirent) : list string -> dirent -> Prop :=
| chain_here entry :
    In entry entries -> chain_to entries [dirent_name entry] entry
| chain_below name below chain entry :
    In (Directory name below) entries ->
    chain_to below chain entry ->
    chain_to entries (name :: chain) entry.

Section Walks.

Variables (cwd homedir obsidianVaultPath : string).
Context {FS : Type} `{FileSystem FS}.
Variable fs : FS.

(** [new RegExp(source, "i").test(name)]: [None] when [source] is no regular
    expression and the constructor throws. *)
Variable RegExp_test : string -> string -> option bool.

(** [await validatePath(p)] returns. *)
Definition validates (p : string) : bool :=
  match fst (run (validatePath cwd homedir obsidianVaultPath p) fs) with
  | Ok _ => true
  | Err _ => false
  end.

(** The [matches] of [search]: the substring test, or else the pattern. *)
Definition name_matches (query name : string) : bool :=
  if Js.includes (Js.toLowerCase name) (Js.toLowerCase query) then true
  else match RegExp_test (Js.stars_to_wildcards query) name with
       | Some found => found
       | None => false
       end.

(** One turn of the loop of [search], on [results]. *)
Fixpoint search_entry (query basePath currentPath : string)
    (results : list string) (entry : dirent) {struct entry} : list string :=
  let fullPath := Path.join [currentPath; dirent_name entry] in
  if validates fullPath then
    let results :=
      if andb (Js.endsWith (dirent_name entry) ".md")
              (name_matches query (dirent_name entry))
      then (results ++ [Js.remove_first fullPath basePath])%list
      else results in
    match entry with
    | Other _ => results
    | Directory _ entries =>
        fold_left (search_entry query basePath fullPath) entries results
    | Unreadable _ _ => results
    end
  else results.

(** [search(basePath, currentPath)] on [results], given what
    [readdir(currentPath)] answers. *)
Definition search (query basePath currentPath : string)
    (listing : result (list dirent)) (results : list string)
    : result unit * list string :=
  match listing with
  | Ok entries =>
      (Ok tt, fold_left (search_entry query basePath currentPath) entries results)
  | Err e => (Err e, results)
  end.

(** [searchNotes(query)], given what [readdir] answers for each allowed
    directory (there is one). *)
Definition searchNotes (readdir : string -> result (list dirent)) (query : string)
    : result (list string) :=
  fold_left
    (fun found dir =>
       match found with
       | Ok results =>
           match search query dir dir (readdir dir) results with
           | (Ok _, results') => Ok results'
           | (Err e, _) => Err e
           end
       | Err e => Err e
       end)
    (vaultDirectories cwd homedir obsidianVaultPath) (Ok []).

(** One turn of the loop of [listDirs], on [dirs]. *)
Fixpoint listDirs_entry (currentPath : string) (dirs : list string)
    (entry : dirent) {struct entry} : list string :=
  if dirent_isDirectory entry then
    let fullPath := Path.join [currentPath; dirent_name entry] in
    if validates fullPath then
      let dirs :=
        (dirs ++ [Js.remove_first fullPath
                    (vaultDirectories_0 cwd homedir obsidianVaultPath)])%list in
      match entry with
      | Directory _ entries => fold_left (listDirs_entry fullPath) entries dirs
      | _ => dirs
      end
    else dirs
  else dirs.

(** [listDirs(currentPath)] from no [dirs], given what [readdir(currentPath)]
    answers. *)
Definition listDirs (listing : result (list dirent)) (currentPath : string)
    : result (list string) :=
  match listing with
  | Ok entries => Ok (fold_left (listDirs_entry currentPath) entries [])
  | Err e => Err e
  end.

(** The entries a walk comes to from a listing, each with its full path: it
    goes down through the directories that validate. *)
Inductive visits (currentPath : string) (entries : list dirent)
    : string -> dirent -> Prop :=
| visits_here entry :
    In entry entries ->
    visits currentPath entries (Path.join [currentPath; dirent_name entry]) entry
| visits_below name below fullPath entry :
    In (Directory name below) entries ->
    validates (Path.join [currentPath; name]) = true ->
    visits (Path.join [currentPath; name]) below fullPath entry ->
    visits currentPath entries fullPath entry.

End Walks.

(** What [readdir] answers in the vault of the examples: a note, a
    directory with a note and another file, the link, the settings directory
    of the editor and a directory that may not be read. *)
Definition demo_listing : list dirent :=
  [ Other "a.md";
    Directory "notes" [Other "b.md"; Other "todo.txt"];
    Other "link";
    Directory ".obsidian" [Other "app.md"];
    Unreadable "locked.md" "EACCES: permission denied, scandir '/vault/locked.md'" ].

Definition demo_readdir (dir : string) : result (list dirent) :=
  if String.eqb dir "/vault" then Ok demo_listing
  else if String.eqb dir "/vault/notes" then Ok [Other "b.md"; Other "todo.txt"]
  else Err ("ENOENT: no such file or directory, scandir '" ++ dir ++ "'").

(** A pattern engine that takes no query for a regular expression. *)
Definition no_RegExp (source name : string) : option bool := None.

(** ** The path functions on the examples of the Node documentation *)

Example normalize_doc :
  Path.normalize "/foo/bar//baz/asdf/quux/.." = "/foo/bar/baz/asdf".
Proof. reflexivity. Qed.

Example normalize_relative_doc :
  Path.normalize "../a/./b/../../../c/" = "../../c/".
Proof. reflexivity. Qed.

Example join_doc :
  Path.join ["/foo"; "bar"; "baz/asdf"; "quux"; ".."] = "/foo/bar/baz/asdf".
Proof. reflexivity. Qed.

Example resolve_doc :
  Path.resolve "/home/myself/node" ["/foo/bar"; "./baz"] = "/foo/bar/baz"
  /\ Path.resolve "/home/myself/node" ["/foo/bar"; "/tmp/file/"] = "/tmp/file"
  /\ Path.resolve "/home/myself/node" ["wwwroot"; "static_files/png/"; "../gif/image.gif"]
     = "/home/myself/node/wwwroot/static_files/gif/image.gif".
Proof. repeat split; reflexivity. Qed.

Example dirname_doc :
  Path.dirname "/foo/bar/baz/asdf/quux" = "/foo/bar/baz/asdf"
  /\ Path.dirname "/vault/note.md" = "/vault"
  /\ Path.dirname "/vault" = "/"
  /\ Path.dirname "note.md" = ".".
Proof. repeat split; reflexivity. Qed.

Example isAbsolute_doc :
  Path.isAbsolute "/foo/bar" = true
  /\ Path.isAbsolute "qux/" = false
  /\ Path.isAbsolute "." = false.
Proof. repeat split; reflexivity. Qed.

Example split_doc :
  Js.split Path.sep "/vault/.obsidian/app.json" = [EmptyString; "vault"; ".obsidian"; "app.json"].
Proof. reflexivity. Qed.

Example normalizePath_doc : normalizePath "/Users/Me//Vault/" = "/users/me/vault/".
Proof. reflexivity. Qed.

Example includes_doc :
  Js.includes "foo bar.md" "o b" = true
  /\ Js.includes "foo" EmptyString = true
  /\ Js.includes "foo" "oof" = false.
Proof. repeat split; reflexivity. Qed.

Example endsWith_doc :
  Js.endsWith "note.md" ".md" = true
  /\ Js.endsWith ".md" ".md" = true
  /\ Js.endsWith "md" ".md" = false
  /\ Js.endsWith "note.mdx" ".md" = false.
Proof. repeat split; reflexivity. Qed.

Example remove_first_doc :
  Js.remove_first "/vault/a/vault/b.md" "/vault" = "/a/vault/b.md"
  /\ Js.remove_first "/Vault/a.md" "/vault" = "/Vault/a.md".
Proof. repeat split; reflexivity. Qed.

Example stars_to_wildcards_doc : Js.stars_to_wildcards "f*.md" = "f.*.md".
Proof. reflexivity. Qed.

Example searchNotes_doc :
  searchNotes "/" "/home/user" "/vault" demo_fs no_RegExp demo_readdir EmptyString
    = Ok ["/a.md"; "/notes/b.md"; "/locked.md"]
  /\ listDirs "/" "/home/user" "/vault" demo_fs (demo_readdir "/vault") "/vault"
     = Ok ["/notes"; "/locked.md"].
Proof. split; vm_compute; reflexivity. Qed.

(** ** Strings *)

Lemma append_empty_r (s : string) : s ++ EmptyString = s.
Proof. induction s as [|c s IH]; simpl; [reflexivity|]. rewrite IH. reflexivity. Qed.

(** ** Splitting and joining on the separator *)

Section SplitFacts.

Variable sep : ascii.

Lemma split_not_nil (s : string) : Js.split sep s <> [].
Proof.
  destruct s as [|c s]; simpl; [discriminate|].
  destruct (Ascii.eqb c sep); [discriminate|].
  destruct (Js.split sep s); discriminate.
Qed.

Lemma split_sep_free (s : string) : Js.sep_free sep s -> Js.split sep s = [s].
Proof.
  induction s as [|c s IH]; simpl; [reflexivity|].
  intros [Hc Hs]. rewrite Hc, (IH Hs). reflexivity.
Qed.

Lemma split_segments_sep_free (s : string) : Forall (Js.sep_free sep) (Js.split sep s).
Proof.
  induction s as [|c s IH]; simpl.
  - repeat constructor.
  - destruct (Ascii.eqb c sep) eqn:Hc.
    + constructor; [exact I|exact IH].
    + destruct (Js.split sep s) as [|seg segs].
      * repeat constructor. exact Hc.
      * inversion IH; subst. constructor; [split; assumption|assumption].
Qed.

Lemma split_app_sep (a b : string) :
  Js.split sep (a ++ String sep b) = (Js.split sep a ++ Js.split sep b)%list.
Proof.
  induction a as [|c a IH]; simpl.
  - rewrite Ascii.eqb_refl. reflexivity.
  - destruct (Ascii.eqb c sep); [rewrite IH; reflexivity|].
    rewrite IH. destruct (Js.split sep a) as [|seg segs] eqn:Ha.
    + exfalso. exact (split_not_nil a Ha).
    + reflexivity.
Qed.

Lemma split_join (l : list string) :
  l <> [] -> Forall (Js.sep_free sep) l ->
  Js.split sep (Js.join (String sep EmptyString) l) = l.
Proof.
  induction l as [|s l IH]; [congruence|].
  intros _ Hall. inversion Hall as [|? ? Hs Hl]; subst.
  destruct l as [|s' l'].
  - simpl. apply split_sep_free, Hs.
  - change (Js.join (String sep EmptyString) (s :: s' :: l'))
      with (s ++ String sep (Js.join (String sep EmptyString) (s' :: l'))).
    rewrite split_app_sep, IH by (congruence || assumption).
    rewrite split_sep_free by exact Hs. reflexivity.
Qed.

(** Joining the segments of a string gives the string back. *)
Lemma join_split (s : string) : Js.join (String sep EmptyString) (Js.split sep s) = s.
Proof.
  induction s as [|c s IH]; [reflexivity|]. simpl Js.split.
  destruct (Ascii.eqb_spec c sep) as [->|_].
  - destruct (Js.split sep s) as [|seg segs] eqn:Hs;
      [exfalso; exact (split_not_nil s Hs)|].
    change (Js.join (String sep EmptyString) (EmptyString :: seg :: segs))
      with (String sep (Js.join (String sep EmptyString) (seg :: segs))).
    rewrite IH. reflexivity.
  - destruct (Js.split sep s) as [|seg segs] eqn:Hs;
      [exfalso; exact (split_not_nil s Hs)|].
    rewrite <- IH. destruct segs; reflexivity.
Qed.

End SplitFacts.

(** ** Running programs *)

Section RunFacts.

Context {FS : Type} `{FileSystem FS}.

Lemma run_bind {A B} (m : prog A) (f : A -> prog B) (fs : FS) :
  run (bind m f) fs =
  match run m fs with
  | (Ok a, fs') => run (f a) fs'
  | (Err e, fs') => (Err e, fs')
  end.
Proof.
  revert fs; induction m as [a|e|p k IH|p k IH|p c k IH]; intros fs; simpl;
    try reflexivity; try apply IH.
  destruct (fs_writeFile fs p c) as [r fs1]; apply IH.
Qed.

Lemma run_try_catch {A} (m : prog A) (handler : string -> prog A) (fs : FS) :
  run (try_catch m handler) fs =
  match run m fs with
  | (Ok a, fs') => (Ok a, fs')
  | (Err e, fs') => run (handler e) fs'
  end.
Proof.
  revert fs; induction m as [a|e|p k IH|p k IH|p c k IH]; intros fs; simpl;
    try reflexivity; try apply IH.
  destruct (fs_writeFile fs p c) as [r fs1]; apply IH.
Qed.

Lemma run_realpath (p : string) (fs : FS) :
  run (realpath p) fs = (fs_realpath fs p, fs).
Proof. unfold realpath; simpl. destruct (fs_realpath fs p); reflexivity. Qed.

Lemma run_readFile (p : string) (fs : FS) :
  run (readFile p) fs = (fs_readFile fs p, fs).
Proof. unfold readFile; simpl. destruct (fs_readFile fs p); reflexivity. Qed.

Lemma run_writeFile (p c : string) (fs : FS) :
  run (writeFile p c) fs = fs_writeFile fs p c.
Proof.
  unfold writeFile; simpl. destruct (fs_writeFile fs p c) as [[[]|e] fs1]; reflexivity.
Qed.

(** A list of programs that all return without touching the state is run
    item by item. *)
Lemma run_mapM_pure {A B} (f : A -> prog B) (g : A -> B) (l : list A) (fs : FS) :
  (forall a, run (f a) fs = (Ok (g a), fs)) ->
  run (mapM f l) fs = (Ok (map g l), fs).
Proof.
  intros Hf; induction l as [|a l IH]; simpl; [reflexivity|].
  rewrite run_bind, Hf, run_bind, IH. reflexivity.
Qed.

End RunFacts.

(** ** The validator *)

Section ValidatorFacts.

Variables (cwd homedir obsidianVaultPath : string).
Context {FS : Type} `{FileSystem FS}.

Local Abbreviation validatePath' := (validatePath cwd homedir obsidianVaultPath).
Local Abbreviation isAllowed' := (isAllowed cwd homedir obsidianVaultPath).
Local Abbreviation absolutePath' := (absolutePath cwd homedir).

(** [validatePath] only reads: it settles to [validatePath_outcome] and leaves
    the filesystem as it found it. *)
Lemma run_validatePath (fs : FS) (requestedPath : string) :
  run (validatePath' requestedPath) fs = (validatePath_outcome cwd homedir obsidianVaultPath fs requestedPath, fs).
Proof.
  unfold validatePath, validatePath_outcome, parent_outcome.
  destruct (hasHiddenPart requestedPath); [reflexivity|].
  destruct (isAllowed' (normalizePath (absolutePath' requestedPath))); simpl;
    [|reflexivity].
  destruct (fs_realpath fs (absolutePath' requestedPath)) as [realPath|e]; simpl.
  - destruct (isAllowed' (normalizePath realPath)); simpl; [reflexivity|].
    destruct (fs_realpath fs (Path.dirname (absolutePath' requestedPath)))
      as [realParentPath|e']; simpl; [|reflexivity].
    destruct (isAllowed' (normalizePath realParentPath)); reflexivity.
  - destruct (fs_realpath fs (Path.dirname (absolutePath' requestedPath)))
      as [realParentPath|e']; simpl; [|reflexivity].
    destruct (isAllowed' (normalizePath realParentPath)); reflexivity.
Qed.

Lemma parent_outcome_ok (fs : FS) (absolute r : string) :
  parent_outcome cwd homedir obsidianVaultPath fs absolute = Ok r -> r = absolute.
Proof.
  unfold parent_outcome.
  destruct (fs_realpath fs (Path.dirname absolute)) as [rp|]; [|discriminate].
  destruct (isAllowed' (normalizePath rp)); congruence.
Qed.

(** C2: whenever [validatePath] returns a path, that path is either the real
    path of the request or the absolute request itself, and in both cases its
    normalized form begins with a stored (normalized) allowed directory. *)
Theorem validatePath_result_confined (fs : FS) (requestedPath resolved : string) :
  fst (run (validatePath' requestedPath) fs) = Ok resolved ->
  (fs_realpath fs (absolutePath' requestedPath) = Ok resolved
   \/ resolved = absolutePath' requestedPath)
  /\ exists dir, In dir (vaultDirectories cwd homedir obsidianVaultPath)
                 /\ Js.startsWith (normalizePath resolved) dir = true.
Proof.
  rewrite run_validatePath; simpl. unfold validatePath_outcome.
  destruct (hasHiddenPart requestedPath); [discriminate|].
  destruct (isAllowed' (normalizePath (absolutePath' requestedPath))) eqn:Habs;
    [|discriminate].
  assert (Hfallback : parent_outcome cwd homedir obsidianVaultPath fs (absolutePath' requestedPath) = Ok resolved ->
            (fs_realpath fs (absolutePath' requestedPath) = Ok resolved
             \/ resolved = absolutePath' requestedPath)
            /\ isAllowed' (normalizePath resolved) = true).
  { intros Hp. apply parent_outcome_ok in Hp. subst resolved. auto. }
  assert (Hgoal : (fs_realpath fs (absolutePath' requestedPath) = Ok resolved
             \/ resolved = absolutePath' requestedPath)
            /\ isAllowed' (normalizePath resolved) = true ->
          (fs_realpath fs (absolutePath' requestedPath) = Ok resolved
             \/ resolved = absolutePath' requestedPath)
          /\ exists dir, In dir (vaultDirectories cwd homedir obsidianVaultPath)
                 /\ Js.startsWith (normalizePath resolved) dir = true).
  { intros [Hwhere Hallowed]. split; [exact Hwhere|].
    unfold isAllowed, Js.some in Hallowed. apply existsb_exists in Hallowed.
    exact Hallowed. }
  destruct (fs_realpath fs (absolutePath' requestedPath)) as [realPath|e] eqn:Hreal.
  - destruct (isAllowed' (normalizePath realPath)) eqn:Hok.
    + intros Heq. injection Heq as <-. apply Hgoal. auto.
    + intros Hp. apply Hgoal, Hfallback, Hp.
  - intros Hp. apply Hgoal. apply Hfallback in Hp. destruct Hp as [[Hp|Hp] Hq].
    * discriminate.
    * auto.
Qed.

(** C3: a request with a separator-delimited segment that starts with "." is
    refused with the hidden-files "Access denied" error, before anything is
    looked up, wherever the segment stands. *)
Theorem validatePath_rejects_hidden_segment (requestedPath seg : string) :
  In seg (Js.split Path.sep requestedPath) ->
  Js.startsWith seg "." = true ->
  validatePath' requestedPath
    = Throw "Access denied - hidden files/directories not allowed"
  /\ is_access_denied "Access denied - hidden files/directories not allowed" = true.
Proof.
  intros Hin Hdot. split; [|reflexivity].
  unfold validatePath.
  replace (hasHiddenPart requestedPath) with true; [reflexivity|].
  symmetry. unfold hasHiddenPart, Js.some. apply existsb_exists.
  exists seg. auto.
Qed.

(** C4: a request whose normalized absolute form begins with no allowed
    directory is refused with an "Access denied" error, and the program that
    refuses it contains no filesystem call. *)
Theorem validatePath_rejects_outside (requestedPath : string) :
  isAllowed' (normalizePath (absolutePath' requestedPath)) = false ->
  exists message,
    validatePath' requestedPath = Throw message
    /\ is_access_denied message = true
    /\ forall (fs : FS), calls (validatePath' requestedPath) fs = [].
Proof.
  intros Hout. unfold validatePath. rewrite Hout.
  destruct (hasHiddenPart requestedPath); simpl.
  - eexists; split; [reflexivity|]. split; [reflexivity|]. reflexivity.
  - eexists; split; [reflexivity|]. split; [reflexivity|]. reflexivity.
Qed.

(** A request with a separator directly followed by "." has a hidden
    segment, whatever surrounds it; so has a request that begins with ".". *)
Lemma hasHiddenPart_dot_after_sep (before after : string) :
  hasHiddenPart (before ++ "/." ++ after) = true.
Proof.
  unfold hasHiddenPart, Js.some.
  change (before ++ "/." ++ after) with (before ++ String Path.sep ("." ++ after)).
  rewrite split_app_sep, existsb_app. apply orb_true_iff. right.
  simpl. destruct (Js.split Path.sep after); reflexivity.
Qed.

Lemma hasHiddenPart_leading_dot (after : string) :
  hasHiddenPart ("." ++ after) = true.
Proof.
  unfold hasHiddenPart, Js.some. simpl.
  destruct (Js.split Path.sep after); reflexivity.
Qed.

(** The rejection of a link that leaves the allowed directories is thrown
    inside the [try] whose [catch] handles files that do not exist yet: the
    parent directory then decides, and the request itself is returned. *)
Lemma symlink_rejection_is_caught (fs : FS) (requestedPath realPath realParentPath : string) :
  hasHiddenPart requestedPath = false ->
  isAllowed' (normalizePath (absolutePath' requestedPath)) = true ->
  fs_realpath fs (absolutePath' requestedPath) = Ok realPath ->
  isAllowed' (normalizePath realPath) = false ->
  fs_realpath fs (Path.dirname (absolutePath' requestedPath)) = Ok realParentPath ->
  isAllowed' (normalizePath realParentPath) = true ->
  run (validatePath' requestedPath) fs = (Ok (absolutePath' requestedPath), fs).
Proof.
  intros Hhidden Hprefix Hreal Hescapes Hparent Hallowed.
  rewrite run_validatePath. f_equal.
  unfold validatePath_outcome, parent_outcome.
  rewrite Hhidden, Hprefix, Hreal, Hescapes, Hparent, Hallowed. reflexivity.
Qed.

(** Whatever the filesystem, [validatePath] never fails with the message it
    throws for a link that leaves the allowed directories. *)
Lemma symlink_denial_never_surfaces (fs : FS) (requestedPath : string) :
  fst (run (validatePath' requestedPath) fs)
  <> Err "Access denied - symlink target outside allowed directories".
Proof.
  rewrite run_validatePath. simpl fst. unfold validatePath_outcome, parent_outcome.
  destruct (hasHiddenPart requestedPath); [discriminate|].
  destruct (isAllowed' (normalizePath (absolutePath' requestedPath)));
    [|simpl; discriminate].
  destruct (fs_realpath fs (absolutePath' requestedPath)) as [realPath|];
    [destruct (isAllowed' (normalizePath realPath)); [discriminate|]|];
    (destruct (fs_realpath fs (Path.dirname (absolutePath' requestedPath)))
       as [realParentPath|];
     [destruct (isAllowed' (normalizePath realParentPath))|]);
    simpl; discriminate.
Qed.

(** C5: for a request that passes the hidden-segment and prefix checks, whose
    real path cannot be resolved and whose parent directory resolves to a
    real path under an allowed directory, [validatePath] returns the absolute
    request itself. *)
Theorem validatePath_new_file (fs : FS) (requestedPath realParentPath : string) :
  hasHiddenPart requestedPath = false ->
  isAllowed' (normalizePath (absolutePath' requestedPath)) = true ->
  (forall r, fs_realpath fs (absolutePath' requestedPath) <> Ok r) ->
  fs_realpath fs (Path.dirname (absolutePath' requestedPath)) = Ok realParentPath ->
  isAllowed' (normalizePath realParentPath) = true ->
  run (validatePath' requestedPath) fs = (Ok (absolutePath' requestedPath), fs).
Proof.
  intros Hhidden Hprefix Hnone Hparent Hallowed.
  rewrite run_validatePath. f_equal.
  unfold validatePath_outcome, parent_outcome.
  rewrite Hhidden, Hprefix.
  destruct (fs_realpath fs (absolutePath' requestedPath)) as [r|e] eqn:Hreal.
  - exfalso. exact (Hnone r eq_refl).
  - rewrite Hparent, Hallowed. reflexivity.
Qed.

End ValidatorFacts.

(** ** Absolute paths *)

Section AbsolutePaths.

Lemma normalize_absolute (p : string) :
  Path.starts_with_slash p = true ->
  Path.starts_with_slash (Path.normalize p) = true.
Proof.
  intros Habs. unfold Path.normalize.
  destruct p as [|c p]; [discriminate|].
  rewrite Habs. simpl negb.
  destruct (Path.normalizeString (String c p) false); [reflexivity|].
  destruct (Path.ends_with_slash (String c p)); reflexivity.
Qed.

Lemma toLowerCase_absolute (p : string) :
  Path.starts_with_slash p = true ->
  Path.starts_with_slash (Js.toLowerCase p) = true.
Proof.
  destruct p as [|c p]; [discriminate|]. simpl. intros Hc.
  apply Ascii.eqb_eq in Hc. subst c. reflexivity.
Qed.

Lemma resolve_absolute (cwd p : string) :
  Path.starts_with_slash cwd = true ->
  Path.starts_with_slash (Path.resolve cwd [p]) = true.
Proof.
  intros Hcwd. unfold Path.resolve.
  assert (Hloop : exists q, Path.resolve_loop (rev [p] ++ [cwd])%list EmptyString = (q, true)).
  { destruct cwd as [|c cwd']; [discriminate|].
    destruct p as [|d p']; simpl; simpl in Hcwd.
    - rewrite Hcwd. eexists; reflexivity.
    - destruct (Ascii.eqb d Path.sep); [eexists; reflexivity|].
      rewrite Hcwd. eexists; reflexivity. }
  destruct Hloop as [q ->]. reflexivity.
Qed.

(** An absolute path resolves without the working directory. *)
Lemma resolve_of_absolute (cwd cwd' p : string) :
  Path.starts_with_slash p = true ->
  Path.resolve cwd [p] = Path.resolve cwd' [p].
Proof.
  intros Hp. unfold Path.resolve. simpl.
  destruct p as [|c p']; [discriminate|]. rewrite Hp. reflexivity.
Qed.

Lemma join_absolute (root arg : string) :
  Path.starts_with_slash root = true ->
  Path.starts_with_slash (Path.join [root; arg]) = true.
Proof.
  intros Hroot. unfold Path.join. simpl.
  destruct root as [|c root']; [discriminate|].
  destruct arg as [|d arg']; simpl Path.join_args;
    apply normalize_absolute; exact Hroot.
Qed.

Lemma join_prepends (root arg : string) :
  root <> EmptyString -> arg <> EmptyString ->
  Path.join [root; arg] = Path.normalize (root ++ "/" ++ arg).
Proof.
  intros Hroot Harg. unfold Path.join. simpl.
  destruct root as [|c root']; [congruence|].
  destruct arg as [|d arg']; [congruence|]. reflexivity.
Qed.

Lemma expandHome_absolute (homedir p : string) :
  Path.starts_with_slash p = true -> expandHome homedir p = p.
Proof.
  intros Hp. unfold expandHome.
  destruct p as [|c p']; [discriminate|]. simpl in Hp.
  apply Ascii.eqb_eq in Hp. subst c. reflexivity.
Qed.

Lemma absolutePath_of_absolute (cwd homedir cwd' homedir' p : string) :
  Path.starts_with_slash p = true ->
  absolutePath cwd homedir p = absolutePath cwd' homedir' p.
Proof.
  intros Hp. unfold absolutePath.
  rewrite !expandHome_absolute by exact Hp.
  unfold Path.isAbsolute. rewrite Hp. apply resolve_of_absolute, Hp.
Qed.

Lemma vaultDirectories_0_absolute (cwd homedir obsidianVaultPath : string) :
  Path.starts_with_slash cwd = true ->
  Path.starts_with_slash (vaultDirectories_0 cwd homedir obsidianVaultPath) = true.
Proof.
  intros Hcwd. unfold vaultDirectories_0, vaultDirectories. simpl nth.
  unfold normalizePath.
  apply toLowerCase_absolute, normalize_absolute, resolve_absolute, Hcwd.
Qed.

End AbsolutePaths.

(** ** The tool handlers *)

Section HandlerFacts.

Variables (cwd homedir obsidianVaultPath : string).
Context {FS : Type} `{FileSystem FS}.

Local Abbreviation vault0 := (vaultDirectories_0 cwd homedir obsidianVaultPath).
Local Abbreviation validatePath' := (validatePath cwd homedir obsidianVaultPath).

Lemma run_read_note (fs : FS) (filePath : string) :
  run (read_note cwd homedir obsidianVaultPath filePath) fs
  = (Ok (read_note_fragment cwd homedir obsidianVaultPath fs filePath), fs).
Proof.
  unfold read_note, read_note_fragment.
  rewrite run_try_catch, run_bind, run_validatePath.
  destruct (validatePath_outcome cwd homedir obsidianVaultPath fs
              (Path.join [vault0; filePath])) as [validPath|e]; [|reflexivity].
  rewrite run_bind, run_readFile.
  destruct (fs_readFile fs validPath); reflexivity.
Qed.

Lemma run_read_notes_results (fs : FS) (paths : list string) :
  run (read_notes_results cwd homedir obsidianVaultPath paths) fs
  = (Ok (map (read_note_fragment cwd homedir obsidianVaultPath fs) paths), fs).
Proof.
  unfold read_notes_results. apply run_mapM_pure. intros p. apply run_read_note.
Qed.

(** C6: when the search yields more than 200 notes the text is the first 200
    of them, one per line, followed by a note of how many are left out; with
    200 or fewer there is no such note. *)
Theorem search_notes_limit (searchNotes : string -> prog (list string))
    (query : string) (fs fs' : FS) (results : list string) :
  run (searchNotes query) fs = (Ok results, fs') ->
  run (obsidian_search_notes searchNotes query) fs
    = (Ok {| text := search_notes_text results; isError := false |}, fs')
  /\ (SEARCH_LIMIT < length results ->
      length (firstn SEARCH_LIMIT results) = 200
      /\ search_notes_text results
         = Js.join nl (firstn SEARCH_LIMIT results)
           ++ nl ++ nl ++ "... " ++ Js.of_nat (length results - 200)
           ++ " more results not shown.")
  /\ (length results <= SEARCH_LIMIT ->
      search_notes_text results
      = match results with
        | [] => "No matches found"
        | _ => Js.join nl results
        end).
Proof.
  intros Hsearch. split; [|split].
  - unfold obsidian_search_notes. rewrite run_bind, Hsearch. reflexivity.
  - intros Hmore. unfold SEARCH_LIMIT in *.
    assert (Hlen : length (firstn 200 results) = 200)
      by (rewrite length_firstn; lia).
    split; [exact Hlen|].
    unfold search_notes_text, SEARCH_LIMIT. rewrite Hlen.
    destruct (Nat.ltb_spec 200 (length results)) as [_|Hle]; [|lia].
    reflexivity.
  - intros Hfew. unfold search_notes_text, SEARCH_LIMIT in *.
    rewrite firstn_all2 by exact Hfew.
    destruct (Nat.ltb_spec 200 (length results)) as [Hlt|_]; [lia|].
    destruct results as [|r results']; simpl; [reflexivity|].
    apply append_empty_r.
Qed.

(** C7: [obsidian_read_notes] never fails as a whole and changes nothing; its
    text joins one fragment per requested path, in the order of the request,
    each being the note's content or the message of what failed for it. *)
Theorem read_notes_per_item (fs : FS) (paths : list string) :
  run (read_notes_results cwd homedir obsidianVaultPath paths) fs
    = (Ok (map (read_note_fragment cwd homedir obsidianVaultPath fs) paths), fs)
  /\ run (obsidian_read_notes cwd homedir obsidianVaultPath paths) fs
    = (Ok {| text := Js.join (nl ++ "---" ++ nl)
                       (map (read_note_fragment cwd homedir obsidianVaultPath fs) paths);
             isError := false |}, fs).
Proof.
  split; [apply run_read_notes_results|].
  unfold obsidian_read_notes. rewrite run_bind, run_read_notes_results. reflexivity.
Qed.

(** C9: when the path of a write request does not validate, the handler
    returns (also through the dispatcher) an error-flagged payload that lists
    the allowed directories, and the filesystem is the one it started from. *)
Theorem write_note_soft_error (searchNotes listDirs : string -> prog (list string))
    (fs : FS) (path content errorMessage : string) :
  fst (run (validatePath' (Path.join [vault0; path])) fs) = Err errorMessage ->
  let guidance :=
    {| text := "Please specify the target directory. Available directories:"
               ++ nl ++ Js.join nl (vaultDirectories cwd homedir obsidianVaultPath);
       isError := true |} in
  run (obsidian_write_note cwd homedir obsidianVaultPath path content) fs
    = (Ok guidance, fs)
  /\ run (call_tool cwd homedir obsidianVaultPath searchNotes listDirs
            (obsidian_write_note_req path content)) fs
    = (Ok guidance, fs).
Proof.
  rewrite run_validatePath. simpl fst. intros Hinvalid guidance.
  assert (Hwrite :
    run (obsidian_write_note cwd homedir obsidianVaultPath path content) fs
    = (Ok guidance, fs)).
  { unfold obsidian_write_note.
    rewrite run_try_catch, run_bind, run_validatePath, Hinvalid. reflexivity. }
  split; [exact Hwrite|].
  unfold call_tool. rewrite run_try_catch, Hwrite. reflexivity.
Qed.

End HandlerFacts.

(** C10: the three operations that take a path validate
    [path.join(vaultDirectories[0], arg)] and nothing else; that path is
    absolute, for a non-empty argument it is the normal form of the root, a
    separator and the argument (an absolute argument included), and what
    [validatePath] makes of it depends neither on the working directory nor
    on the home directory. *)
Theorem handlers_join_vault_root (cwd homedir obsidianVaultPath arg : string) :
  Path.isAbsolute cwd = true ->
  let vault0 := vaultDirectories_0 cwd homedir obsidianVaultPath in
  let joined := Path.join [vault0; arg] in
  read_note cwd homedir obsidianVaultPath arg
    = try_catch
        (validPath <- validatePath cwd homedir obsidianVaultPath joined ;;
         content <- readFile validPath ;;
         Ret (arg ++ ":" ++ nl ++ content ++ nl))
        (fun errorMessage => Ret (arg ++ ": Error - " ++ errorMessage))
  /\ (forall listDirs,
        obsidian_read_notes_dir cwd homedir obsidianVaultPath listDirs arg
        = (validPath <- validatePath cwd homedir obsidianVaultPath joined ;;
           dirs <- listDirs validPath ;;
           Ret {| text := Js.join nl dirs; isError := false |}))
  /\ (forall content,
        obsidian_write_note cwd homedir obsidianVaultPath arg content
        = try_catch
            (validPath <- validatePath cwd homedir obsidianVaultPath joined ;;
             writeFile validPath content ;;;
             Ret {| text := "Note successfully written to " ++ arg;
                    isError := false |})
            (fun _ =>
               Ret {| text := "Please specify the target directory. Available directories:"
                              ++ nl ++ Js.join nl (vaultDirectories cwd homedir obsidianVaultPath);
                      isError := true |}))
  /\ Path.isAbsolute joined = true
  /\ (arg <> EmptyString -> joined = Path.normalize (vault0 ++ "/" ++ arg))
  /\ (forall cwd' homedir',
        absolutePath cwd' homedir' joined = absolutePath cwd homedir joined).
Proof.
  intros Hcwd vault0 joined.
  assert (Hroot : Path.starts_with_slash vault0 = true)
    by (apply vaultDirectories_0_absolute; exact Hcwd).
  assert (Hjoined : Path.starts_with_slash joined = true)
    by (apply join_absolute; exact Hroot).
  repeat split; try reflexivity.
  - exact Hjoined.
  - intros Harg. apply join_prepends; [|exact Harg].
    intros Hempty. rewrite Hempty in Hroot. discriminate.
  - intros cwd' homedir'. apply absolutePath_of_absolute, Hjoined.
Qed.

(** ** The in-memory filesystem obeys the laws of paths, and its files keep
    what is written to them *)

Module MemFSFacts.
Import MemFS.

Lemma walk_nil (links : nat) (fs : t) (cur : list string) :
  walk links fs cur [] = Found cur.
Proof. destruct links; reflexivity. Qed.

Lemma walk_cons (links : nat) (fs : t) (cur : list string) (seg : string)
    (rest : list string) :
  walk links fs cur (seg :: rest) =
  if is_blank seg then walk links fs cur rest
  else if String.eqb seg ".." then walk links fs (tl cur) rest
  else
    match lookup fs (render (seg :: cur)) with
    | None =>
        match rest with
        | [] => Missing (seg :: cur)
        | _ => Fail "ENOENT: no such file or directory"
        end
    | Some Dir => walk links fs (seg :: cur) rest
    | Some (File _) =>
        match rest with
        | [] => Found (seg :: cur)
        | _ => Fail "ENOTDIR: not a directory"
        end
    | Some (Symlink target) =>
        match links with
        | O => Fail "ELOOP: too many symbolic links encountered"
        | S links' =>
            walk links' fs
              (if Path.starts_with_slash target then [] else cur)
              (Js.split Path.sep target ++ rest)%list
        end
    end.
Proof. destruct links; reflexivity. Qed.

Lemma lookup_cons (fs : t) (k k' : string) (n : node) :
  lookup ((k', n) :: fs) k = if String.eqb k k' then Some n else lookup fs k.
Proof. reflexivity. Qed.

(** Binding a regular file to a key that held none, or another regular file,
    keeps every location that was found and turns the missing location with
    that key into a found one. *)
Lemma walk_after_write (fs : t) (k content : string) :
  writable fs k ->
  forall links cur rest,
    match walk links fs cur rest with
    | Found x => walk links ((k, File content) :: fs) cur rest = Found x
    | Missing x =>
        walk links ((k, File content) :: fs) cur rest
        = if String.eqb (render x) k then Found x else Missing x
    | Fail _ => True
    end.
Proof.
  intros Hk. induction links as [|links IHlinks]; intros cur rest; revert cur;
    induction rest as [|seg rest IHrest]; intros cur;
    rewrite ?walk_nil; try reflexivity; rewrite !walk_cons.
  all: destruct (is_blank seg); [apply IHrest|].
  all: destruct (String.eqb seg ".."); [apply IHrest|].
  all: rewrite lookup_cons.
  all: destruct (String.eqb (render (seg :: cur)) k) eqn:Hkey.
  all: try (apply String.eqb_eq in Hkey; rewrite Hkey;
            destruct Hk as [Hk|[c0 Hk]]; rewrite Hk;
            destruct rest; try exact I; try reflexivity;
            rewrite <- Hkey, ?String.eqb_refl; reflexivity).
  all: destruct (lookup fs (render (seg :: cur))) as [[c0| |target]|];
       try apply IHrest.
  all: try (destruct rest; try exact I; try reflexivity; rewrite ?Hkey; reflexivity).
  apply IHlinks.
Qed.

Lemma walk_missing (fs : t) :
  forall links cur rest x,
    walk links fs cur rest = Missing x ->
    x <> [] /\ lookup fs (render x) = None.
Proof.
  induction links as [|links IHlinks]; intros cur rest; revert cur;
    induction rest as [|seg rest IHrest]; intros cur x;
    rewrite ?walk_nil; try discriminate; rewrite walk_cons.
  all: destruct (is_blank seg); [apply IHrest|].
  all: destruct (String.eqb seg ".."); [apply IHrest|].
  all: destruct (lookup fs (render (seg :: cur))) as [[c0| |target]|] eqn:Hlook;
       try apply IHrest; try discriminate.
  all: try (destruct rest; intros Hx; try discriminate Hx;
            injection Hx as <-; split; [discriminate|exact Hlook]).
  all: try (destruct rest; intros Hx; discriminate Hx).
  apply IHlinks.
Qed.

Lemma dir_chain_tl (fs : t) (cur : list string) :
  dir_chain fs cur -> dir_chain fs (tl cur).
Proof. destruct cur as [|seg cur]; simpl; [trivial|]. intros (_ & _ & Hc). exact Hc. Qed.

Lemma dir_chain_suffix (fs : t) (a b : list string) :
  dir_chain fs (a ++ b) -> dir_chain fs b.
Proof.
  induction a as [|seg a IH]; [trivial|].
  intros (_ & _ & Hc). exact (IH Hc).
Qed.

Lemma dir_chain_sep_free (fs : t) (cur : list string) :
  dir_chain fs cur -> Forall (Js.sep_free Path.sep) cur.
Proof.
  induction cur as [|seg cur IH]; [constructor|].
  intros ((_ & _ & Hseg) & _ & Hc). constructor; [exact Hseg|exact (IH Hc)].
Qed.

Lemma dir_chain_real (fs : t) (cur : list string) : dir_chain fs cur -> real fs cur.
Proof. intros Hc. left. exact Hc. Qed.

(** Resolution ends on real locations only. *)
Lemma walk_found_real (fs : t) :
  forall links cur rest x,
    dir_chain fs cur ->
    Forall (Js.sep_free Path.sep) rest ->
    walk links fs cur rest = Found x ->
    real fs x.
Proof.
  induction links as [|links IHlinks]; intros cur rest; revert cur;
    induction rest as [|seg rest IHrest]; intros cur x Hcur Hrest;
    rewrite ?walk_nil; try (intros Hx; injection Hx as <-; apply dir_chain_real, Hcur);
    rewrite walk_cons; inversion Hrest as [|? ? Hseg Hrest']; subst.
  all: destruct (is_blank seg) eqn:Hblank; [apply IHrest; assumption|].
  all: destruct (String.eqb seg "..") eqn:Hdots;
       [apply IHrest; [apply dir_chain_tl|]; assumption|].
  all: assert (Hname : entry_name seg) by (repeat split; assumption).
  all: destruct (lookup fs (render (seg :: cur))) as [[c0| |target]|] eqn:Hlook.
  all: try (destruct rest; intros Hx; discriminate Hx).
  all: try (apply IHrest; [simpl; auto|assumption]).
  all: try (destruct rest; intros Hx; try discriminate Hx; injection Hx as <-;
            right; repeat split; try apply Hname; try assumption;
            exists c0; exact Hlook).
  apply IHlinks.
  - destruct (Path.starts_with_slash target); [exact I|exact Hcur].
  - apply Forall_app. split; [apply split_segments_sep_free|exact Hrest'].
Qed.

(** Walking down a chain of directories is a matter of looking them up. *)
Lemma walk_chain (fs : t) (links : nat) :
  forall segs base rest,
    dir_chain fs (rev segs ++ base) ->
    walk links fs base (segs ++ rest) = walk links fs (rev segs ++ base) rest.
Proof.
  induction segs as [|seg segs IH]; intros base rest Hchain; [reflexivity|].
  simpl rev in *. rewrite <- app_assoc in *. simpl app in *.
  destruct (dir_chain_suffix _ _ _ Hchain) as ((Hblank & Hdots & _) & Hdir & _).
  rewrite walk_cons, Hblank, Hdots, Hdir. apply IH, Hchain.
Qed.

Lemma render_split (x : list string) :
  x <> [] -> Forall (Js.sep_free Path.sep) x ->
  Js.split Path.sep (render x) = EmptyString :: rev x.
Proof.
  intros Hx Hfree. unfold render.
  change ("/" ++ Js.join "/" (rev x))
    with (String Path.sep (Js.join (String Path.sep EmptyString) (rev x))).
  simpl Js.split. rewrite ?Ascii.eqb_refl. f_equal.
  apply split_join.
  - intros Hrev. apply Hx. rewrite <- (rev_involutive x), Hrev. reflexivity.
  - apply Forall_rev, Hfree.
Qed.

(** A real location resolves to itself. *)
Lemma walk_real (fs : t) (links : nat) (x : list string) :
  real fs x -> walk links fs [] (Js.split Path.sep (render x)) = Found x.
Proof.
  intros Hreal. destruct x as [|seg x'].
  - change (Js.split Path.sep (render [])) with [EmptyString; EmptyString].
    rewrite !walk_cons. simpl. apply walk_nil.
  - destruct Hreal as [Hchain|(Hname & [c0 Hfile] & Hchain)].
    + rewrite render_split by (discriminate || apply (dir_chain_sep_free fs), Hchain).
      rewrite walk_cons. simpl is_blank. cbv iota.
      rewrite <- (app_nil_r (rev (seg :: x'))).
      rewrite walk_chain by (rewrite rev_involutive, app_nil_r; exact Hchain).
      rewrite walk_nil, rev_involutive, app_nil_r. reflexivity.
    + rewrite render_split;
        [|discriminate
         |constructor; [apply Hname|apply (dir_chain_sep_free fs), Hchain]].
      rewrite walk_cons. simpl is_blank. cbv iota. simpl rev.
      rewrite walk_chain by (rewrite rev_involutive, app_nil_r; exact Hchain).
      rewrite rev_involutive, app_nil_r, walk_cons.
      destruct Hname as (Hblank & Hdots & _).
      rewrite Hblank, Hdots, Hfile. reflexivity.
Qed.

Lemma writeFile_binds (fs fs' : t) (p content : string) :
  writeFile fs p content = (Ok tt, fs') ->
  exists seg cur,
    fs' = (render (seg :: cur), File content) :: fs
    /\ writable fs (render (seg :: cur))
    /\ (resolve fs p = Found (seg :: cur) \/ resolve fs p = Missing (seg :: cur)).
Proof.
  unfold writeFile. destruct (resolve fs p) as [[|seg cur]|x|e] eqn:Hres;
    try discriminate.
  - destruct (lookup fs (render (seg :: cur))) as [[c0| |target]|] eqn:Hlook;
      try discriminate.
    intros Hw. injection Hw as <-. exists seg, cur.
    split; [reflexivity|]. split; [right; exists c0; exact Hlook|left; reflexivity].
  - intros Hw. injection Hw as <-.
    destruct (walk_missing _ _ _ _ Hres) as [Hx Hnone].
    destruct x as [|seg cur]; [congruence|]. exists seg, cur.
    split; [reflexivity|]. split; [left; exact Hnone|right; reflexivity].
Qed.

(** A regular file gives back what was written to it: with no device in it,
    the in-memory filesystem reads every successful write back. *)
Lemma memfs_read_after_write (fs fs' : t) (p content : string) :
  writeFile fs p content = (Ok tt, fs') -> readFile fs' p = Ok content.
Proof.
  intros Hw. destruct (writeFile_binds _ _ _ Hw) as (seg & cur & -> & Hk & Hres).
  pose proof (walk_after_write content Hk max_links [] (Js.split Path.sep p)) as Hafter.
  unfold readFile, resolve in *.
  destruct Hres as [Hres|Hres]; rewrite Hres in Hafter;
    rewrite ?String.eqb_refl in Hafter; rewrite Hafter;
    rewrite lookup_cons, String.eqb_refl; reflexivity.
Qed.

Lemma memfs_realpath_stable_under_write (fs fs' : t) (p content q r : string) :
  writeFile fs p content = (Ok tt, fs') ->
  realpath fs q = Ok r -> realpath fs' q = Ok r.
Proof.
  intros Hw. destruct (writeFile_binds _ _ _ Hw) as (seg & cur & -> & Hk & _).
  pose proof (walk_after_write content Hk max_links [] (Js.split Path.sep q)) as Hafter.
  unfold realpath, resolve in *.
  destruct (walk max_links fs [] (Js.split Path.sep q)) as [x|x|e];
    try discriminate.
  rewrite Hafter. trivial.
Qed.

Lemma memfs_realpath_names_same_file (fs : t) (p r content : string) :
  realpath fs p = Ok r -> readFile fs p = Ok content -> readFile fs r = Ok content.
Proof.
  unfold realpath, readFile, resolve.
  destruct (walk max_links fs [] (Js.split Path.sep p)) as [x|x|e] eqn:Hwalk;
    try discriminate.
  intros Hr. injection Hr as <-.
  rewrite (walk_real (fs := fs) max_links (x := x)); [trivial|].
  eapply walk_found_real; [| |exact Hwalk];
    [exact I|apply split_segments_sep_free].
Qed.

(** A real path is its own real path. *)
Lemma memfs_realpath_idempotent (fs : t) (p r : string) :
  realpath fs p = Ok r -> realpath fs r = Ok r.
Proof.
  unfold realpath, resolve.
  destruct (walk max_links fs [] (Js.split Path.sep p)) as [x|x|e] eqn:Hwalk;
    try discriminate.
  intros Hr. injection Hr as <-.
  rewrite (walk_real (fs := fs) max_links (x := x)); [trivial|].
  eapply walk_found_real; [| |exact Hwalk];
    [exact I|apply split_segments_sep_free].
Qed.

End MemFSFacts.


(** The null device breaks none of the laws of paths. *)
Lemma nullfs_FileSystemLaws : FileSystemLaws NullFS.t.
Proof.
  constructor.
  - intros [tree] p r content. simpl.
    unfold NullFS.realpath, NullFS.readFile, NullFS.is_null. simpl.
    intros Hreal. rewrite Hreal.
    rewrite (MemFSFacts.memfs_realpath_idempotent _ _ Hreal).
    destruct (String.eqb r NullFS.null); [trivial|].
    apply MemFSFacts.memfs_realpath_names_same_file, Hreal.
  - intros [tree] [tree'] p content q r. simpl.
    unfold NullFS.realpath, NullFS.writeFile. simpl.
    destruct (NullFS.is_null (NullFS.mount tree) p).
    + intros Hw. injection Hw as <-. trivial.
    + destruct (MemFS.writeFile tree p content) as [res tree1] eqn:Hw.
      intros Heq. injection Heq as -> ->.
      eapply MemFSFacts.memfs_realpath_stable_under_write, Hw.
Qed.

(** ** Writing a note and reading it back *)

Section RoundTrip.

Variables (cwd homedir obsidianVaultPath : string).
Context {FS : Type} {F : FileSystem FS} {L : FileSystemLaws FS}.

Local Abbreviation outcome' := (validatePath_outcome cwd homedir obsidianVaultPath).
Local Abbreviation fragment' := (read_note_fragment cwd homedir obsidianVaultPath).



End RoundTrip.

(** ** The vault of the examples *)

Section Demo.

Local Abbreviation demo_validatePath := (validatePath "/" "/home/user" "/vault").

(** C1: /vault/link is a symbolic link to /etc/passwd, outside the only
    allowed directory /vault; [validatePath] nevertheless returns
    /vault/link, and [obsidian_read_notes] serves the file behind it. *)
Theorem validatePath_symlink_escape :
  vaultDirectories "/" "/home/user" "/vault" = ["/vault"]
  /\ fs_realpath demo_fs "/vault/link" = Ok "/etc/passwd"
  /\ isAllowed "/" "/home/user" "/vault" (normalizePath "/etc/passwd") = false
  /\ run (demo_validatePath "/vault/link") demo_fs = (Ok "/vault/link", demo_fs)
  /\ fst (run (obsidian_read_notes "/" "/home/user" "/vault" ["link"]) demo_fs)
     = Ok {| text := "link:" ++ nl ++ "root:x:0:0" ++ nl; isError := false |}.
Proof. repeat split; vm_compute; reflexivity. Qed.

Lemma validatePath_result_confined_witness :
  fst (run (demo_validatePath "/vault/notes/b.md") demo_fs) = Ok "/vault/notes/b.md"
  /\ exists dir, In dir (vaultDirectories "/" "/home/user" "/vault")
                 /\ Js.startsWith (normalizePath "/vault/notes/b.md") dir = true.
Proof.
  split; [vm_compute; reflexivity|].
  apply (validatePath_result_confined "/" "/home/user" "/vault" demo_fs
           "/vault/notes/b.md").
  vm_compute; reflexivity.
Defined.

Lemma validatePath_rejects_hidden_segment_witness :
  In ".obsidian" (Js.split Path.sep "/vault/.obsidian/app.json")
  /\ demo_validatePath "/vault/.obsidian/app.json"
     = Throw "Access denied - hidden files/directories not allowed".
Proof.
  split; [simpl; auto|].
  apply (validatePath_rejects_hidden_segment "/" "/home/user" "/vault"
           "/vault/.obsidian/app.json" ".obsidian"); [simpl; auto|reflexivity].
Defined.

Lemma validatePath_rejects_outside_witness :
  isAllowed "/" "/home/user" "/vault"
    (normalizePath (absolutePath "/" "/home/user" "/etc/passwd")) = false
  /\ exists message,
       demo_validatePath "/etc/passwd" = Throw message
       /\ is_access_denied message = true
       /\ forall fs : MemFS.t, calls (demo_validatePath "/etc/passwd") fs = [].
Proof.
  split; [vm_compute; reflexivity|].
  apply (validatePath_rejects_outside "/" "/home/user" "/vault" (FS := MemFS.t)
           "/etc/passwd").
  vm_compute; reflexivity.
Defined.

Lemma validatePath_new_file_witness :
  fs_realpath demo_fs "/vault/notes" = Ok "/vault/notes"
  /\ run (demo_validatePath "/vault/notes/new.md") demo_fs
     = (Ok "/vault/notes/new.md", demo_fs).
Proof.
  split; [vm_compute; reflexivity|].
  apply (validatePath_new_file "/" "/home/user" "/vault" demo_fs
           "/vault/notes/new.md" (realParentPath := "/vault/notes"));
    try (vm_compute; reflexivity).
  intros r. vm_compute. discriminate.
Defined.

Lemma search_notes_limit_witness :
  let results := repeat "note.md" 250 in
  SEARCH_LIMIT < length results
  /\ search_notes_text results
     = Js.join nl (repeat "note.md" 200)
       ++ nl ++ nl ++ "... 50 more results not shown.".
Proof.
  intros results. split; [vm_compute; lia|].
  destruct (search_notes_limit (fun _ => Ret results) "note" demo_fs
              (fs' := demo_fs) (results := results) eq_refl) as [_ [Hmore _]].
  destruct Hmore as [_ Htext]; [vm_compute; lia|].
  rewrite Htext. vm_compute. reflexivity.
Defined.

Lemma write_note_soft_error_witness :
  fst (run (demo_validatePath (Path.join ["/vault"; "../etc/passwd"])) demo_fs)
    = Err "Access denied - path outside allowed directories: /etc/passwd not in /vault"
  /\ run (obsidian_write_note "/" "/home/user" "/vault" "../etc/passwd" "x") demo_fs
     = (Ok {| text := "Please specify the target directory. Available directories:"
                      ++ nl ++ "/vault";
              isError := true |}, demo_fs).
Proof.
  split; [vm_compute; reflexivity|].
  apply (write_note_soft_error "/" "/home/user" "/vault"
           (fun _ => Ret []) (fun _ => Ret []) demo_fs "../etc/passwd" "x"
           (errorMessage :=
              "Access denied - path outside allowed directories: /etc/passwd not in /vault")).
  vm_compute; reflexivity.
Defined.

Lemma handlers_join_vault_root_witness :
  Path.isAbsolute "/srv" = true
  /\ Path.join [vaultDirectories_0 "/srv" "/home/user" "/vault"; "/etc/passwd"]
     = "/vault/etc/passwd"
  /\ absolutePath "/tmp" "/root"
       (Path.join [vaultDirectories_0 "/srv" "/home/user" "/vault"; "/etc/passwd"])
     = "/vault/etc/passwd".
Proof.
  split; [reflexivity|]. split; [vm_compute; reflexivity|].
  destruct (handlers_join_vault_root "/srv" "/home/user" "/vault" "/etc/passwd" eq_refl)
    as (_ & _ & _ & _ & _ & Hfree).
  rewrite Hfree. vm_compute. reflexivity.
Defined.



End Demo.

(** ** More about the validator *)

Section ValidatorOutcomes.

Variables (cwd homedir obsidianVaultPath : string).
Context {FS : Type} `{FileSystem FS}.

Local Abbreviation validatePath' := (validatePath cwd homedir obsidianVaultPath).
Local Abbreviation isAllowed' := (isAllowed cwd homedir obsidianVaultPath).
Local Abbreviation absolutePath' := (absolutePath cwd homedir).

(** X1: [validatePath] fails in three ways only: with the hidden-files denial
    when a segment starts with ".", with the outside-allowed-directories
    denial when the prefix test fails, and otherwise with "Parent directory
    does not exist"; the two denials thrown after a [realpath] never come
    out. *)
Theorem validatePath_failure_messages (fs : FS) (requestedPath message : string) :
  fst (run (validatePath' requestedPath) fs) = Err message ->
  (hasHiddenPart requestedPath = true
   /\ message = "Access denied - hidden files/directories not allowed")
  \/ (hasHiddenPart requestedPath = false
      /\ isAllowed' (normalizePath (absolutePath' requestedPath)) = false
      /\ message = "Access denied - path outside allowed directories: "
                   ++ absolutePath' requestedPath ++ " not in "
                   ++ Js.join ", " (vaultDirectories cwd homedir obsidianVaultPath))
  \/ (hasHiddenPart requestedPath = false
      /\ isAllowed' (normalizePath (absolutePath' requestedPath)) = true
      /\ message = "Parent directory does not exist: "
                   ++ Path.dirname (absolutePath' requestedPath)).
Proof.
  rewrite run_validatePath. simpl fst. unfold validatePath_outcome, parent_outcome.
  destruct (hasHiddenPart requestedPath).
  - intros Hm. injection Hm as <-. left. auto.
  - destruct (isAllowed' (normalizePath (absolutePath' requestedPath))).
    + intros Hm. right. right. split; [reflexivity|]. split; [reflexivity|].
      destruct (fs_realpath fs (absolutePath' requestedPath)) as [realPath|];
        [destruct (isAllowed' (normalizePath realPath)); [discriminate|]|];
        (destruct (fs_realpath fs (Path.dirname (absolutePath' requestedPath)))
           as [realParentPath|];
         [destruct (isAllowed' (normalizePath realParentPath)); [discriminate|]|]);
        injection Hm as <-; reflexivity.
    + intros Hm. injection Hm as <-. right. left. auto.
Qed.

(** X2: [validatePath] leaves the filesystem as it is and asks it for real
    paths only: nothing when a pure check refuses the request, the real path
    of the absolute request when that one is accepted, and the real paths of
    the absolute request and of its parent directory otherwise. *)
Theorem validatePath_filesystem_calls (fs : FS) (requestedPath : string) :
  snd (run (validatePath' requestedPath) fs) = fs
  /\ calls (validatePath' requestedPath) fs
     = let absolute := absolutePath' requestedPath in
       if orb (hasHiddenPart requestedPath)
              (negb (isAllowed' (normalizePath absolute)))
       then []
       else match fs_realpath fs absolute with
            | Ok realPath =>
                if isAllowed' (normalizePath realPath)
                then [CallRealpath absolute]
                else [CallRealpath absolute; CallRealpath (Path.dirname absolute)]
            | Err _ =>
                [CallRealpath absolute; CallRealpath (Path.dirname absolute)]
            end.
Proof.
  split; [rewrite run_validatePath; reflexivity|].
  unfold validatePath.
  destruct (hasHiddenPart requestedPath); [reflexivity|].
  destruct (isAllowed' (normalizePath (absolutePath' requestedPath)));
    [|reflexivity].
  simpl.
  destruct (fs_realpath fs (absolutePath' requestedPath)) as [realPath|e]; simpl.
  - destruct (isAllowed' (normalizePath realPath)); simpl; [reflexivity|].
    destruct (fs_realpath fs (Path.dirname (absolutePath' requestedPath)))
      as [realParentPath|e']; simpl; [|reflexivity].
    destruct (isAllowed' (normalizePath realParentPath)); reflexivity.
  - destruct (fs_realpath fs (Path.dirname (absolutePath' requestedPath)))
      as [realParentPath|e']; simpl; [|reflexivity].
    destruct (isAllowed' (normalizePath realParentPath)); reflexivity.
Qed.

(** X3: a path is accepted only on one of two grounds: its own real path
    begins (normalized) with an allowed directory and is what is returned, or
    the request itself is returned and the real path of its parent directory
    begins with an allowed directory. *)
Theorem validatePath_success_grounds (fs : FS) (requestedPath resolved : string) :
  fst (run (validatePath' requestedPath) fs) = Ok resolved ->
  hasHiddenPart requestedPath = false
  /\ isAllowed' (normalizePath (absolutePath' requestedPath)) = true
  /\ ((fs_realpath fs (absolutePath' requestedPath) = Ok resolved
       /\ isAllowed' (normalizePath resolved) = true)
      \/ (resolved = absolutePath' requestedPath
          /\ exists realParentPath,
               fs_realpath fs (Path.dirname (absolutePath' requestedPath))
                 = Ok realParentPath
               /\ isAllowed' (normalizePath realParentPath) = true)).
Proof.
  rewrite run_validatePath. simpl fst. unfold validatePath_outcome.
  destruct (hasHiddenPart requestedPath); [discriminate|].
  destruct (isAllowed' (normalizePath (absolutePath' requestedPath)));
    [|discriminate].
  intros Hok. split; [reflexivity|]. split; [reflexivity|].
  assert (Hparent :
    parent_outcome cwd homedir obsidianVaultPath fs (absolutePath' requestedPath)
      = Ok resolved ->
    resolved = absolutePath' requestedPath
    /\ exists realParentPath,
         fs_realpath fs (Path.dirname (absolutePath' requestedPath)) = Ok realParentPath
         /\ isAllowed' (normalizePath realParentPath) = true).
  { unfold parent_outcome.
    destruct (fs_realpath fs (Path.dirname (absolutePath' requestedPath)))
      as [realParentPath|]; [|discriminate].
    destruct (isAllowed' (normalizePath realParentPath)) eqn:Hallowed;
      [|discriminate].
    intros Hr. injection Hr as <-. split; [reflexivity|].
    exists realParentPath. auto. }
  destruct (fs_realpath fs (absolutePath' requestedPath)) as [realPath|].
  - destruct (isAllowed' (normalizePath realPath)) eqn:Hallowed.
    + injection Hok as <-. left. auto.
    + right. exact (Hparent Hok).
  - right. exact (Hparent Hok).
Qed.

(** X4: for a request that passes the two pure checks and whose real path
    begins with an allowed directory, [validatePath] returns that real path
    (the target, when the request goes through links inside the vault). *)
Theorem validatePath_existing (fs : FS) (requestedPath realPath : string) :
  hasHiddenPart requestedPath = false ->
  isAllowed' (normalizePath (absolutePath' requestedPath)) = true ->
  fs_realpath fs (absolutePath' requestedPath) = Ok realPath ->
  isAllowed' (normalizePath realPath) = true ->
  run (validatePath' requestedPath) fs = (Ok realPath, fs).
Proof.
  intros Hhidden Hprefix Hreal Hallowed.
  rewrite run_validatePath. f_equal. unfold validatePath_outcome.
  rewrite Hhidden, Hprefix, Hreal, Hallowed. reflexivity.
Qed.

End ValidatorOutcomes.

(** ** The filesystem calls of composed programs *)

Section CallFacts.

Context {FS : Type} `{FileSystem FS}.

Lemma calls_bind {A B} (m : prog A) (f : A -> prog B) (fs : FS) :
  calls (bind m f) fs
  = (calls m fs
     ++ match run m fs with
        | (Ok a, fs') => calls (f a) fs'
        | (Err _, _) => []
        end)%list.
Proof.
  revert fs; induction m as [a|e|p k IH|p k IH|p c k IH]; intros fs; simpl;
    try reflexivity; try (f_equal; apply IH).
  f_equal. destruct (fs_writeFile fs p c) as [r fs1]. apply IH.
Qed.

Lemma calls_try_catch {A} (m : prog A) (handler : string -> prog A) (fs : FS) :
  calls (try_catch m handler) fs
  = (calls m fs
     ++ match run m fs with
        | (Ok _, _) => []
        | (Err e, fs') => calls (handler e) fs'
        end)%list.
Proof.
  revert fs; induction m as [a|e|p k IH|p k IH|p c k IH]; intros fs; simpl;
    try reflexivity; try (f_equal; apply IH).
  f_equal. destruct (fs_writeFile fs p c) as [r fs1]. apply IH.
Qed.

Lemma calls_writeFile (p content : string) (fs : FS) :
  calls (writeFile p content) fs = [CallWriteFile p content].
Proof.
  unfold writeFile. simpl. destruct (fs_writeFile fs p content) as [[u|e] fs1];
    reflexivity.
Qed.

End CallFacts.

(** ** More about the tool handlers *)

Section HandlerOutcomes.

Variables (cwd homedir obsidianVaultPath : string).
Context {FS : Type} `{FileSystem FS}.
Variables (searchNotes listDirs : string -> prog (list string)).

Local Abbreviation vault0 := (vaultDirectories_0 cwd homedir obsidianVaultPath).
Local Abbreviation validatePath' := (validatePath cwd homedir obsidianVaultPath).
Local Abbreviation call_tool' :=
  (call_tool cwd homedir obsidianVaultPath searchNotes listDirs).

(** The payload of the [catch] of the [obsidian_write_note] case. *)
Local Abbreviation guidance :=
  {| text := "Please specify the target directory. Available directories:"
             ++ nl ++ Js.join nl (vaultDirectories cwd homedir obsidianVaultPath);
     isError := true |}.

(** X5: when the path validates and the write goes through, the handler
    answers "Note successfully written to" followed by the path as it was
    given, without the error flag; after the validator's lookups its only
    filesystem call is that one write, made at the validated path. *)
Theorem write_note_success (fs fs' : FS) (path content validPath : string) :
  fst (run (validatePath' (Path.join [vault0; path])) fs) = Ok validPath ->
  fs_writeFile fs validPath content = (Ok tt, fs') ->
  run (obsidian_write_note cwd homedir obsidianVaultPath path content) fs
    = (Ok {| text := "Note successfully written to " ++ path; isError := false |}, fs')
  /\ calls (obsidian_write_note cwd homedir obsidianVaultPath path content) fs
     = (calls (validatePath' (Path.join [vault0; path])) fs
        ++ [CallWriteFile validPath content])%list.
Proof.
  rewrite run_validatePath. simpl fst. intros Hvalid Hwrite.
  unfold obsidian_write_note. split.
  - rewrite run_try_catch, run_bind, run_validatePath, Hvalid.
    rewrite run_bind, run_writeFile, Hwrite. reflexivity.
  - rewrite calls_try_catch, calls_bind, run_bind, run_validatePath, Hvalid.
    rewrite calls_bind, run_bind, run_writeFile, Hwrite, calls_writeFile.
    simpl. rewrite !app_nil_r. reflexivity.
Qed.

(** X6: when the path validates but the write itself is rejected (the target
    is a directory, say), the handler answers with the same error-flagged
    guidance as for a path that does not validate; the message of the failed
    write is dropped. *)
Theorem write_note_write_failure (fs fs' : FS)
    (path content validPath errorMessage : string) :
  fst (run (validatePath' (Path.join [vault0; path])) fs) = Ok validPath ->
  fs_writeFile fs validPath content = (Err errorMessage, fs') ->
  run (obsidian_write_note cwd homedir obsidianVaultPath path content) fs
    = (Ok guidance, fs').
Proof.
  rewrite run_validatePath. simpl fst. intros Hvalid Hwrite.
  unfold obsidian_write_note.
  rewrite run_try_catch, run_bind, run_validatePath, Hvalid.
  rewrite run_bind, run_writeFile, Hwrite. reflexivity.
Qed.

(** X7: whatever the two directory walks do and whatever the filesystem
    answers, a tool call ends in a payload, never in an exception; and when
    the handler of the call throws, the payload is "Error: " followed by the
    message, with the error flag. *)
Theorem call_tool_never_throws (req : request) (fs : FS) :
  exists payload fs',
    run (call_tool' req) fs = (Ok payload, fs')
    /\ forall message,
         fst (run (match req with
                   | obsidian_read_notes_req paths =>
                       obsidian_read_notes cwd homedir obsidianVaultPath paths
                   | obsidian_search_notes_req query =>
                       obsidian_search_notes searchNotes query
                   | obsidian_read_notes_dir_req path =>
                       obsidian_read_notes_dir cwd homedir obsidianVaultPath listDirs path
                   | obsidian_write_note_req path content =>
                       obsidian_write_note cwd homedir obsidianVaultPath path content
                   end) fs) = Err message ->
         payload = {| text := "Error: " ++ message; isError := true |}.
Proof.
  unfold call_tool. rewrite run_try_catch.
  destruct (run _ fs) as [[payload|e] fs'].
  - exists payload, fs'. split; [reflexivity|]. discriminate.
  - eexists; exists fs'. split; [reflexivity|].
    simpl. intros message Hm. injection Hm as <-. reflexivity.
Qed.

(** X8: when the path given to [obsidian_read_notes_dir] does not validate,
    the walk is not started: the handler makes the validator's filesystem
    calls and no other, and the tool call answers "Error: " followed by the
    validator's message, with the error flag, on an unchanged filesystem. *)
Theorem read_notes_dir_invalid_path (fs : FS) (path errorMessage : string) :
  fst (run (validatePath' (Path.join [vault0; path])) fs) = Err errorMessage ->
  run (call_tool' (obsidian_read_notes_dir_req path)) fs
    = (Ok {| text := "Error: " ++ errorMessage; isError := true |}, fs)
  /\ calls (obsidian_read_notes_dir cwd homedir obsidianVaultPath listDirs path) fs
     = calls (validatePath' (Path.join [vault0; path])) fs.
Proof.
  rewrite run_validatePath. simpl fst. intros Hinvalid.
  unfold call_tool, obsidian_read_notes_dir. split.
  - rewrite run_try_catch, run_bind, run_validatePath, Hinvalid. reflexivity.
  - rewrite calls_bind, run_validatePath, Hinvalid. apply app_nil_r.
Qed.

End HandlerOutcomes.

(** ** Lower case and separators *)

Section LowerFacts.

Ltac by_cases_on_char c :=
  destruct c as [b0 b1 b2 b3 b4 b5 b6 b7];
  destruct b0, b1, b2, b3, b4, b5, b6, b7; reflexivity.

Lemma lower_char_idempotent (c : ascii) :
  Js.lower_char (Js.lower_char c) = Js.lower_char c.
Proof. by_cases_on_char c. Qed.

Lemma lower_char_sep (c : ascii) :
  Ascii.eqb (Js.lower_char c) Path.sep = Ascii.eqb c Path.sep.
Proof. by_cases_on_char c. Qed.

Lemma lower_char_dot (c : ascii) :
  Ascii.eqb (Js.lower_char c) "."%char = Ascii.eqb c "."%char.
Proof. by_cases_on_char c. Qed.

Lemma toLowerCase_idempotent (s : string) :
  Js.toLowerCase (Js.toLowerCase s) = Js.toLowerCase s.
Proof.
  induction s as [|c s IH]; simpl; [reflexivity|].
  rewrite lower_char_idempotent, IH. reflexivity.
Qed.

Lemma toLowerCase_app (a b : string) :
  Js.toLowerCase (a ++ b) = Js.toLowerCase a ++ Js.toLowerCase b.
Proof. induction a as [|c a IH]; simpl; [reflexivity|]. rewrite IH. reflexivity. Qed.

Lemma toLowerCase_join (l : list string) :
  Js.toLowerCase (Js.join "/" l) = Js.join "/" (map Js.toLowerCase l).
Proof.
  induction l as [|s l IH]; [reflexivity|].
  destruct l as [|s' l']; [reflexivity|].
  change (Js.join "/" (s :: s' :: l')) with (s ++ "/" ++ Js.join "/" (s' :: l')).
  rewrite !toLowerCase_app, IH. reflexivity.
Qed.

Lemma toLowerCase_sep_free (s : string) :
  Js.sep_free Path.sep s -> Js.sep_free Path.sep (Js.toLowerCase s).
Proof.
  induction s as [|c s IH]; simpl; [trivial|].
  intros [Hc Hs]. split; [rewrite lower_char_sep; exact Hc|exact (IH Hs)].
Qed.

Lemma toLowerCase_empty (s : string) :
  Js.toLowerCase s = EmptyString -> s = EmptyString.
Proof. destruct s; [trivial|discriminate]. Qed.

Lemma toLowerCase_dot (s : string) : Js.toLowerCase s = "." -> s = ".".
Proof.
  destruct s as [|c s]; [discriminate|]. simpl. intros Heq.
  injection Heq as Hc Hs. apply toLowerCase_empty in Hs. subst s.
  assert (Hdot : Ascii.eqb c "."%char = true).
  { rewrite <- lower_char_dot, Hc. reflexivity. }
  apply Ascii.eqb_eq in Hdot. subst c. reflexivity.
Qed.

Lemma toLowerCase_dots (s : string) : Js.toLowerCase s = ".." -> s = "..".
Proof.
  destruct s as [|c s]; [discriminate|]. simpl. intros Heq.
  injection Heq as Hc Hs. apply toLowerCase_dot in Hs. subst s.
  assert (Hdot : Ascii.eqb c "."%char = true).
  { rewrite <- lower_char_dot, Hc. reflexivity. }
  apply Ascii.eqb_eq in Hdot. subst c. reflexivity.
Qed.

Lemma toLowerCase_plain (s : string) :
  Normal.plain s -> Normal.plain (Js.toLowerCase s).
Proof.
  intros (Hne & Hdot & Hdots & Hfree). repeat split.
  - intros Heq. apply Hne, toLowerCase_empty, Heq.
  - intros Heq. apply Hdot, toLowerCase_dot, Heq.
  - intros Heq. apply Hdots, toLowerCase_dots, Heq.
  - apply toLowerCase_sep_free, Hfree.
Qed.

End LowerFacts.

(** ** Normalization *)

Module NormalFacts.
Import Normal.

Lemma plain_solid (seg : string) : plain seg -> solid seg.
Proof. intros (Hne & _ & _ & Hfree). split; assumption. Qed.

Lemma dots_solid : solid "..".
Proof. split; [discriminate|]. repeat split. Qed.

Lemma normal_stack_solid (a : bool) (stack : list string) :
  normal_stack a stack -> Forall solid stack.
Proof.
  intros (names & k & -> & Hnames & _). apply Forall_app. split.
  - eapply Forall_impl; [|exact Hnames]. apply plain_solid.
  - clear. induction k as [|k IH]; constructor; [apply dots_solid|exact IH].
Qed.

Lemma normal_stack_nil (a : bool) : normal_stack a [].
Proof. exists [], 0. split; [reflexivity|]. split; [constructor|reflexivity]. Qed.

Lemma step_plain (a : bool) (stack : list string) (seg : string) :
  plain seg -> Path.normalize_step a stack seg = seg :: stack.
Proof.
  intros (Hne & Hdot & Hdots & _). unfold Path.normalize_step.
  destruct (String.eqb_spec seg EmptyString); [contradiction|].
  destruct (String.eqb_spec seg "."); [contradiction|].
  destruct (String.eqb_spec seg ".."); [contradiction|]. reflexivity.
Qed.

Lemma fold_plain (a : bool) (segs stack : list string) :
  Forall plain segs ->
  fold_left (Path.normalize_step a) segs stack = (rev segs ++ stack)%list.
Proof.
  revert stack. induction segs as [|seg segs IH]; intros stack Hall; [reflexivity|].
  inversion Hall as [|? ? Hseg Hsegs]; subst. simpl.
  rewrite step_plain by exact Hseg. rewrite IH by exact Hsegs.
  rewrite <- app_assoc. reflexivity.
Qed.

Lemma fold_dots (k j : nat) :
  fold_left (Path.normalize_step true) (repeat ".." k) (repeat ".." j)
  = repeat ".." (k + j).
Proof.
  revert j. induction k as [|k IH]; intros j; [reflexivity|].
  simpl fold_left.
  replace (Path.normalize_step true (repeat ".." j) "..") with (repeat ".." (S j))
    by (destruct j; reflexivity).
  rewrite IH. f_equal. lia.
Qed.

Lemma rev_repeat_dots (k : nat) : rev (repeat ".." k) = repeat ".." k.
Proof.
  induction k as [|k IH]; [reflexivity|].
  simpl. rewrite IH. symmetry. apply repeat_cons.
Qed.

(** One step of [normalizeString] keeps the stack normal. *)
Lemma step_normal (a : bool) (stack : list string) (seg : string) :
  Js.sep_free Path.sep seg ->
  normal_stack a stack -> normal_stack a (Path.normalize_step a stack seg).
Proof.
  intros Hfree (names & k & -> & Hnames & Hk). unfold Path.normalize_step.
  destruct (String.eqb_spec seg EmptyString) as [|Hne];
    [exists names, k; auto|].
  destruct (String.eqb_spec seg ".") as [|Hdot]; [exists names, k; auto|].
  destruct (String.eqb_spec seg "..") as [->|Hdots].
  - destruct names as [|name names].
    + destruct k as [|k]; simpl.
      * destruct a; [exists [], 1|exists [], 0]; repeat split; auto; discriminate.
      * destruct a.
        -- exists [], (S (S k)). repeat split; auto. discriminate.
        -- exists [], (S k). repeat split; auto.
    + inversion Hnames as [|? ? (_ & _ & Hname & _) Hrest]; subst. simpl.
      destruct (String.eqb_spec name ".."); [contradiction|].
      exists names, k. auto.
  - exists (seg :: names), k. repeat split; auto.
    constructor; [repeat split; assumption|exact Hnames].
Qed.

Lemma fold_normal (a : bool) (segs stack : list string) :
  Forall (Js.sep_free Path.sep) segs ->
  normal_stack a stack ->
  normal_stack a (fold_left (Path.normalize_step a) segs stack).
Proof.
  revert stack. induction segs as [|seg segs IH]; intros stack Hall Hstack;
    [exact Hstack|].
  inversion Hall; subst. simpl. apply IH; [assumption|].
  apply step_normal; assumption.
Qed.

(** A normal stack is what [normalizeString] rebuilds from its own output. *)
Lemma refold (a : bool) (stack : list string) :
  normal_stack a stack ->
  fold_left (Path.normalize_step a) (rev stack) [] = stack.
Proof.
  intros (names & k & -> & Hnames & Hk).
  rewrite rev_app_distr, rev_repeat_dots, fold_left_app.
  assert (Hdots : fold_left (Path.normalize_step a) (repeat ".." k) [] = repeat ".." k).
  { destruct a.
    - change (@nil string) with (repeat ".." 0) at 1.
      rewrite fold_dots. f_equal. lia.
    - rewrite (Hk eq_refl). reflexivity. }
  rewrite Hdots, fold_plain by (apply Forall_rev, Hnames).
  rewrite rev_involutive. reflexivity.
Qed.

Lemma string_app_assoc (a b c : string) : (a ++ b) ++ c = a ++ b ++ c.
Proof. induction a as [|x a IH]; simpl; [reflexivity|]. rewrite IH. reflexivity. Qed.

Lemma app_not_empty (a b : string) : b <> EmptyString -> a ++ b <> EmptyString.
Proof. destruct a; simpl; [trivial|discriminate]. Qed.

Lemma ends_with_slash_cons (c : ascii) (s : string) :
  s <> EmptyString -> Path.ends_with_slash (String c s) = Path.ends_with_slash s.
Proof. destruct s; [congruence|reflexivity]. Qed.

Lemma ends_with_slash_app (a b : string) :
  b <> EmptyString -> Path.ends_with_slash (a ++ b) = Path.ends_with_slash b.
Proof.
  intros Hb. induction a as [|c a IH]; [reflexivity|].
  change (String c a ++ b) with (String c (a ++ b)).
  rewrite ends_with_slash_cons by (apply app_not_empty, Hb). exact IH.
Qed.

Lemma ends_with_slash_solid (seg : string) :
  solid seg -> Path.ends_with_slash seg = false.
Proof.
  intros [Hne Hfree]. induction seg as [|c seg IH]; [reflexivity|].
  destruct Hfree as [Hc Hfree]. destruct seg as [|d seg'].
  - simpl. exact Hc.
  - rewrite ends_with_slash_cons by discriminate. apply IH; [discriminate|exact Hfree].
Qed.

Lemma starts_with_slash_solid (seg rest : string) :
  solid seg -> Path.starts_with_slash (seg ++ rest) = false.
Proof.
  intros [Hne Hfree]. destruct seg as [|c seg]; [congruence|].
  simpl. apply Hfree.
Qed.

Lemma join_cons2 (s s' : string) (l : list string) :
  Js.join "/" (s :: s' :: l) = s ++ "/" ++ Js.join "/" (s' :: l).
Proof. reflexivity. Qed.

Lemma join_not_empty (l : list string) :
  l <> [] -> Forall solid l -> Js.join "/" l <> EmptyString.
Proof.
  destruct l as [|s l]; [congruence|]. intros _ Hall.
  inversion Hall as [|? ? [Hne _] _]; subst.
  destruct l as [|s' l']; [exact Hne|].
  rewrite join_cons2. destruct s; [congruence|discriminate].
Qed.

Lemma starts_with_slash_join (l : list string) :
  Forall solid l -> Path.starts_with_slash (Js.join "/" l) = false.
Proof.
  destruct l as [|s l]; [reflexivity|]. intros Hall.
  inversion Hall as [|? ? Hs _]; subst.
  destruct l as [|s' l'].
  - rewrite <- (append_empty_r s). apply starts_with_slash_solid, Hs.
  - rewrite join_cons2. apply starts_with_slash_solid, Hs.
Qed.

Lemma ends_with_slash_join (l : list string) :
  Forall solid l -> Path.ends_with_slash (Js.join "/" l) = false.
Proof.
  induction l as [|s l IH]; [reflexivity|]. intros Hall.
  inversion Hall as [|? ? Hs Hl]; subst.
  destruct l as [|s' l']; [apply ends_with_slash_solid, Hs|].
  rewrite join_cons2, ends_with_slash_app by discriminate.
  change ("/" ++ Js.join "/" (s' :: l')) with (String Path.sep (Js.join "/" (s' :: l'))).
  rewrite ends_with_slash_cons by (apply join_not_empty; [discriminate|exact Hl]).
  apply IH, Hl.
Qed.

Lemma solid_sep_free (l : list string) :
  Forall solid l -> Forall (Js.sep_free Path.sep) l.
Proof. apply Forall_impl. intros seg [_ Hfree]. exact Hfree. Qed.

Lemma split_snoc_sep (s : string) :
  Js.split Path.sep (s ++ "/") = (Js.split Path.sep s ++ [EmptyString])%list.
Proof. exact (split_app_sep Path.sep s EmptyString). Qed.

Lemma split_cons_sep (s : string) :
  Js.split Path.sep ("/" ++ s) = EmptyString :: Js.split Path.sep s.
Proof. reflexivity. Qed.

(** [path.normalize] in terms of what it keeps. *)
Lemma normalize_assemble (p : string) :
  p <> EmptyString ->
  Path.normalize p
  = assemble (Path.starts_with_slash p) (Path.ends_with_slash p)
      (fold_left (Path.normalize_step (negb (Path.starts_with_slash p)))
         (Js.split Path.sep p) []).
Proof.
  intros Hp. destruct p as [|c p]; [congruence|].
  unfold Path.normalize, Path.normalizeString, assemble.
  destruct (Js.join "/" _); reflexivity.
Qed.

(** The shape of an assembled path with at least one segment. *)
Lemma assemble_shape (isAbs trailing : bool) (stack : list string) :
  stack <> [] -> Forall solid stack ->
  assemble isAbs trailing stack
  = (if isAbs then "/" else EmptyString)
    ++ Js.join "/" (rev stack) ++ (if trailing then "/" else EmptyString).
Proof.
  intros Hne Hsolid. unfold assemble.
  assert (Hq : Js.join "/" (rev stack) <> EmptyString).
  { apply join_not_empty; [|apply Forall_rev, Hsolid].
    intros Hrev. apply Hne. rewrite <- (rev_involutive stack), Hrev. reflexivity. }
  destruct (Js.join "/" (rev stack)) as [|c q]; [congruence|].
  destruct isAbs, trailing; simpl; rewrite ?append_empty_r; reflexivity.
Qed.

Lemma split_assemble (isAbs trailing : bool) (stack : list string) :
  stack <> [] -> Forall solid stack ->
  Js.split Path.sep (assemble isAbs trailing stack)
  = ((if isAbs then [EmptyString] else [])
     ++ rev stack ++ (if trailing then [EmptyString] else []))%list.
Proof.
  intros Hne Hsolid. rewrite assemble_shape by assumption.
  assert (Hsplit : Js.split Path.sep (Js.join "/" (rev stack)) = rev stack).
  { apply (split_join Path.sep).
    - intros Hrev. apply Hne. rewrite <- (rev_involutive stack), Hrev. reflexivity.
    - apply solid_sep_free, Forall_rev, Hsolid. }
  set (q := Js.join "/" (rev stack)) in *.
  destruct isAbs, trailing; simpl app.
  - rewrite split_cons_sep, split_snoc_sep, Hsplit. reflexivity.
  - rewrite split_cons_sep, append_empty_r, Hsplit, app_nil_r. reflexivity.
  - change (EmptyString ++ q ++ "/") with (q ++ "/").
    rewrite split_snoc_sep, Hsplit. reflexivity.
  - change (EmptyString ++ q ++ EmptyString) with (q ++ EmptyString).
    rewrite append_empty_r, Hsplit, app_nil_r. reflexivity.
Qed.

Lemma starts_with_slash_assemble (isAbs trailing : bool) (stack : list string) :
  stack <> [] -> Forall solid stack ->
  Path.starts_with_slash (assemble isAbs trailing stack) = isAbs.
Proof.
  intros Hne Hsolid. rewrite assemble_shape by assumption.
  destruct isAbs; [reflexivity|]. simpl append.
  destruct (rev stack) as [|s l] eqn:Hrev.
  - exfalso. apply Hne. rewrite <- (rev_involutive stack), Hrev. reflexivity.
  - assert (Hs : solid s).
    { assert (Hall : Forall solid (s :: l)) by (rewrite <- Hrev; apply Forall_rev, Hsolid).
      inversion Hall; assumption. }
    destruct l as [|s' l'].
    + apply starts_with_slash_solid, Hs.
    + rewrite join_cons2, string_app_assoc.
      apply starts_with_slash_solid, Hs.
Qed.

Lemma ends_with_slash_assemble (isAbs trailing : bool) (stack : list string) :
  stack <> [] -> Forall solid stack ->
  Path.ends_with_slash (assemble isAbs trailing stack) = trailing.
Proof.
  intros Hne Hsolid. rewrite assemble_shape by assumption.
  assert (Hq : Js.join "/" (rev stack) <> EmptyString).
  { apply join_not_empty; [|apply Forall_rev, Hsolid].
    intros Hrev. apply Hne. rewrite <- (rev_involutive stack), Hrev. reflexivity. }
  destruct trailing.
  - rewrite !ends_with_slash_app by (discriminate || (apply app_not_empty; discriminate)).
    reflexivity.
  - rewrite append_empty_r, ends_with_slash_app by exact Hq.
    apply ends_with_slash_join, Forall_rev, Hsolid.
Qed.

Lemma assemble_not_empty (isAbs trailing : bool) (stack : list string) :
  assemble isAbs trailing stack <> EmptyString.
Proof.
  unfold assemble. destruct (Js.join "/" (rev stack)); destruct isAbs, trailing;
    discriminate.
Qed.

(** [path.normalize] leaves what it returns as it is. *)
Lemma normalize_fixed (p : string) : normal_form p -> Path.normalize p = p.
Proof.
  intros (isAbs & trailing & stack & Hstack & ->).
  destruct stack as [|seg stack'] eqn:Hshape.
  - destruct isAbs, trailing; reflexivity.
  - rewrite <- Hshape in *.
    assert (Hne : stack <> []) by (rewrite Hshape; discriminate).
    pose proof (normal_stack_solid Hstack) as Hsolid.
    rewrite normalize_assemble by apply assemble_not_empty.
    rewrite starts_with_slash_assemble, ends_with_slash_assemble, split_assemble
      by assumption.
    f_equal. rewrite !fold_left_app.
    replace (fold_left (Path.normalize_step (negb isAbs))
               (if isAbs then [EmptyString] else []) [])
      with (@nil string) by (destruct isAbs; reflexivity).
    rewrite refold by exact Hstack.
    destruct trailing; reflexivity.
Qed.

Lemma normalize_normal (p : string) : normal_form (Path.normalize p).
Proof.
  destruct (String.eqb_spec p EmptyString) as [->|Hp].
  - exists false, false, []. split; [apply normal_stack_nil|reflexivity].
  - rewrite normalize_assemble by exact Hp.
    eexists _, _, _. split; [|reflexivity].
    apply fold_normal; [apply split_segments_sep_free|apply normal_stack_nil].
Qed.

Lemma normal_stack_lower (a : bool) (stack : list string) :
  normal_stack a stack -> normal_stack a (map Js.toLowerCase stack).
Proof.
  intros (names & k & -> & Hnames & Hk).
  exists (map Js.toLowerCase names), k. split; [|split; [|exact Hk]].
  - rewrite map_app, map_repeat. reflexivity.
  - apply Forall_map. eapply Forall_impl; [|exact Hnames].
    apply toLowerCase_plain.
Qed.

Lemma toLowerCase_assemble (a isAbs trailing : bool) (stack : list string) :
  normal_stack a stack ->
  Js.toLowerCase (assemble isAbs trailing stack)
  = assemble isAbs trailing (map Js.toLowerCase stack).
Proof.
  intros Hstack. destruct stack as [|seg stack'] eqn:Hshape.
  - destruct isAbs, trailing; reflexivity.
  - rewrite <- Hshape in *.
    assert (Hne : stack <> []) by (rewrite Hshape; discriminate).
    rewrite !assemble_shape;
      [|rewrite Hshape; discriminate
       |apply (normal_stack_solid (normal_stack_lower Hstack))
       |exact Hne
       |apply (normal_stack_solid Hstack)].
    rewrite !toLowerCase_app, toLowerCase_join, map_rev.
    destruct isAbs, trailing; reflexivity.
Qed.

Lemma toLowerCase_normal (p : string) :
  normal_form p -> normal_form (Js.toLowerCase p).
Proof.
  intros (isAbs & trailing & stack & Hstack & ->).
  exists isAbs, trailing, (map Js.toLowerCase stack).
  split; [apply normal_stack_lower, Hstack|apply (toLowerCase_assemble _ _ Hstack)].
Qed.

Lemma rooted_assemble (segs : list string) :
  Forall plain segs -> rooted segs = assemble true false (rev segs).
Proof.
  intros Hsegs. destruct segs as [|seg segs'] eqn:Hshape; [reflexivity|].
  rewrite <- Hshape in *.
  rewrite assemble_shape.
  - rewrite rev_involutive, append_empty_r. reflexivity.
  - intros Hrev. rewrite <- (rev_involutive segs), Hrev in Hshape. discriminate.
  - apply Forall_rev. eapply Forall_impl; [|exact Hsegs]. apply plain_solid.
Qed.

Lemma plain_normal_stack (a : bool) (segs : list string) :
  Forall plain segs -> normal_stack a (rev segs).
Proof.
  intros Hsegs. exists (rev segs), 0. split; [symmetry; apply app_nil_r|].
  split; [apply Forall_rev, Hsegs|reflexivity].
Qed.

Lemma rooted_normal (segs : list string) :
  Forall plain segs -> normal_form (rooted segs).
Proof.
  intros Hsegs. exists true, false, (rev segs).
  split; [apply plain_normal_stack, Hsegs|apply rooted_assemble, Hsegs].
Qed.

Lemma toLowerCase_rooted (segs : list string) :
  Js.toLowerCase (rooted segs) = rooted (map Js.toLowerCase segs).
Proof.
  unfold rooted. rewrite toLowerCase_app, toLowerCase_join. reflexivity.
Qed.

Lemma resolve_loop_absolute (cwd : string) :
  Path.starts_with_slash cwd = true ->
  forall paths acc, exists q, Path.resolve_loop (paths ++ [cwd])%list acc = (q, true).
Proof.
  intros Hcwd. induction paths as [|p paths IH]; intros acc.
  - destruct cwd as [|c cwd']; [discriminate|]. simpl. simpl in Hcwd.
    rewrite Hcwd. eexists; reflexivity.
  - destruct p as [|c p']; [apply IH|]. simpl.
    destruct (Ascii.eqb c Path.sep); [eexists; reflexivity|apply IH].
Qed.

(** With an absolute working directory, [path.resolve] returns an absolute
    path made of plain segments. *)
Lemma resolve_rooted (cwd : string) (args : list string) :
  Path.starts_with_slash cwd = true ->
  exists segs, Forall plain segs /\ Path.resolve cwd args = rooted segs.
Proof.
  intros Hcwd. unfold Path.resolve.
  destruct (resolve_loop_absolute cwd Hcwd (rev args) EmptyString) as [q ->].
  unfold Path.normalizeString. simpl negb.
  destruct (fold_normal (a := false) (segs := Js.split Path.sep q) (stack := []))
    as (names & k & Hstack & Hnames & Hk);
    [apply split_segments_sep_free|apply normal_stack_nil|].
  rewrite (Hk eq_refl), app_nil_r in Hstack. rewrite Hstack.
  exists (rev names). split; [apply Forall_rev, Hnames|reflexivity].
Qed.

Lemma split_rooted (segs : list string) :
  Forall plain segs ->
  fold_left (Path.normalize_step false) (Js.split Path.sep (rooted segs)) [] = rev segs.
Proof.
  intros Hsegs.
  destruct segs as [|seg segs'] eqn:Hshape; [reflexivity|]. rewrite <- Hshape in *.
  unfold rooted. rewrite split_cons_sep, (split_join Path.sep).
  - change (fold_left (Path.normalize_step false) (EmptyString :: segs) [])
      with (fold_left (Path.normalize_step false) segs []).
    rewrite fold_plain by exact Hsegs. apply app_nil_r.
  - rewrite Hshape. discriminate.
  - apply solid_sep_free. eapply Forall_impl; [|exact Hsegs]. apply plain_solid.
Qed.

Lemma starts_with_slash_app (a b : string) :
  a <> EmptyString -> Path.starts_with_slash (a ++ b) = Path.starts_with_slash a.
Proof. destruct a; [congruence|reflexivity]. Qed.

Lemma join_two (cur arg : string) :
  cur <> EmptyString -> arg <> EmptyString ->
  Path.join [cur; arg] = Path.normalize (cur ++ "/" ++ arg).
Proof.
  intros Hcur Harg. unfold Path.join. simpl.
  destruct cur; [congruence|]. destruct arg; [congruence|]. reflexivity.
Qed.

(** Joining a path onto an absolute normal path: the segments of the
    argument are worked off on top of those of the base. *)
Lemma join_rooted (segs : list string) (arg : string) :
  Forall plain segs -> arg <> EmptyString ->
  Path.join [rooted segs; arg]
  = assemble true (Path.ends_with_slash arg)
      (fold_left (Path.normalize_step false) (Js.split Path.sep arg) (rev segs)).
Proof.
  intros Hsegs Harg.
  rewrite join_two by (discriminate || exact Harg).
  rewrite normalize_assemble by discriminate.
  change (Path.starts_with_slash (rooted segs ++ "/" ++ arg)) with true.
  change (rooted segs ++ "/" ++ arg) with (rooted segs ++ String Path.sep arg).
  rewrite split_app_sep, fold_left_app, split_rooted by exact Hsegs.
  rewrite ends_with_slash_app by discriminate.
  rewrite ends_with_slash_cons by exact Harg. reflexivity.
Qed.

(** Joining the name of an entry onto an absolute normal path appends it. *)
Lemma join_rooted_name (segs : list string) (name : string) :
  Forall plain segs -> plain name ->
  Path.join [rooted segs; name] = rooted (segs ++ [name]).
Proof.
  intros Hsegs Hname. pose proof Hname as (Hne & _).
  rewrite join_rooted by assumption.
  rewrite (split_sep_free Path.sep) by apply Hname.
  simpl fold_left. rewrite step_plain by exact Hname.
  rewrite (ends_with_slash_solid (plain_solid Hname)).
  rewrite rooted_assemble
    by (apply Forall_app; split; [exact Hsegs|constructor; [exact Hname|constructor]]).
  rewrite rev_app_distr. reflexivity.
Qed.

Lemma split_first_solid (arg : string) :
  Forall plain (Js.split Path.sep arg) ->
  arg <> EmptyString /\ Path.starts_with_slash arg = false
  /\ Path.ends_with_slash arg = false.
Proof.
  intros Hall.
  assert (Hsolid : Forall solid (Js.split Path.sep arg))
    by (eapply Forall_impl; [|exact Hall]; apply plain_solid).
  rewrite <- (join_split Path.sep arg).
  change (Js.join (String Path.sep EmptyString)) with (Js.join "/").
  split; [|split].
  - apply join_not_empty; [apply split_not_nil|exact Hsolid].
  - apply starts_with_slash_join, Hsolid.
  - apply ends_with_slash_join, Hsolid.
Qed.

(** Whatever the directory, an argument made of plain segments keeps them
    all, as the last segments of the path joined from the two. *)
Lemma join_plain_segments (cur arg : string) :
  Forall plain (Js.split Path.sep arg) ->
  exists front,
    Js.split Path.sep (Path.join [cur; arg]) = (front ++ Js.split Path.sep arg)%list.
Proof.
  intros Hall. destruct (split_first_solid arg Hall) as (Hne & Hstart & Hend).
  assert (Hlast : forall isAbs stack,
            normal_stack (negb isAbs) stack ->
            exists front,
              Js.split Path.sep
                (assemble isAbs false (rev (Js.split Path.sep arg) ++ stack))
              = (front ++ Js.split Path.sep arg)%list).
  { intros isAbs stack Hstack.
    rewrite split_assemble.
    - rewrite rev_app_distr, rev_involutive, app_nil_r, app_assoc.
      eexists; reflexivity.
    - intros Hnil. apply app_eq_nil in Hnil. destruct Hnil as [Hnil _].
      apply (split_not_nil Path.sep arg).
      rewrite <- (rev_involutive (Js.split Path.sep arg)), Hnil. reflexivity.
    - apply Forall_app. split; [|apply (normal_stack_solid Hstack)].
      apply Forall_rev. eapply Forall_impl; [|exact Hall]. apply plain_solid. }
  destruct (String.eqb_spec cur EmptyString) as [->|Hcur].
  - replace (Path.join [EmptyString; arg]) with (Path.normalize arg)
      by (unfold Path.join; simpl; destruct arg; [congruence|reflexivity]).
    rewrite normalize_assemble by exact Hne.
    rewrite Hstart, Hend, fold_plain by exact Hall.
    apply (Hlast false), normal_stack_nil.
  - rewrite join_two by assumption.
    rewrite normalize_assemble by (apply app_not_empty; discriminate).
    change (cur ++ "/" ++ arg) with (cur ++ String Path.sep arg).
    rewrite split_app_sep, fold_left_app, fold_plain by exact Hall.
    rewrite ends_with_slash_app by discriminate.
    rewrite ends_with_slash_cons, Hend by exact Hne.
    apply Hlast, fold_normal; [apply split_segments_sep_free|apply normal_stack_nil].
Qed.

(** In particular the name of an entry is the last segment of the path
    joined from its directory and itself. *)
Lemma join_entry_last (cur name : string) :
  plain name ->
  exists front, Js.split Path.sep (Path.join [cur; name]) = (front ++ [name])%list.
Proof.
  intros Hname. pose proof Hname as (_ & _ & _ & Hfree).
  destruct (join_plain_segments cur name) as [front Hfront].
  - rewrite (split_sep_free Path.sep name Hfree). constructor; [exact Hname|constructor].
  - exists front. rewrite Hfront, (split_sep_free Path.sep name Hfree). reflexivity.
Qed.

(** [path.resolve] of an absolute normal path is that path. *)
Lemma resolve_rooted_fixed (cwd : string) (segs : list string) :
  Forall plain segs -> Path.resolve cwd [rooted segs] = rooted segs.
Proof.
  intros Hsegs. unfold Path.resolve.
  change (Path.resolve_loop (rev [rooted segs] ++ [cwd])%list EmptyString)
    with (rooted segs ++ "/", true).
  unfold Path.normalizeString. simpl negb.
  rewrite split_snoc_sep, fold_left_app, split_rooted by exact Hsegs.
  change (fold_left (Path.normalize_step false) [EmptyString] (rev segs))
    with (rev segs).
  rewrite rev_involutive. reflexivity.
Qed.

End NormalFacts.

(** ** Normalized paths in the server *)

Section NormalizedPaths.

Import Normal.

(** X9: [normalizePath] is idempotent: a path that went through it, as every
    allowed directory has, is left as it is by another pass. *)
Theorem normalizePath_idempotent (p : string) :
  normalizePath (normalizePath p) = normalizePath p.
Proof.
  unfold normalizePath.
  rewrite (NormalFacts.normalize_fixed
             (NormalFacts.toLowerCase_normal (NormalFacts.normalize_normal p))).
  apply toLowerCase_idempotent.
Qed.

Lemma vaultDirectories_rooted (cwd homedir obsidianVaultPath : string) :
  Path.isAbsolute cwd = true ->
  exists segs,
    Forall plain segs
    /\ vaultDirectories cwd homedir obsidianVaultPath = [rooted segs]
    /\ Js.toLowerCase (rooted segs) = rooted segs.
Proof.
  intros Hcwd. unfold vaultDirectories, normalizePath.
  destruct (NormalFacts.resolve_rooted cwd [expandHome homedir obsidianVaultPath] Hcwd)
    as (segs & Hsegs & ->).
  rewrite (NormalFacts.normalize_fixed (NormalFacts.rooted_normal Hsegs)).
  exists (map Js.toLowerCase segs). split; [|split].
  - apply Forall_map. eapply Forall_impl; [|exact Hsegs]. apply toLowerCase_plain.
  - rewrite NormalFacts.toLowerCase_rooted. reflexivity.
  - rewrite <- NormalFacts.toLowerCase_rooted. apply toLowerCase_idempotent.
Qed.

(** X10: started in an absolute working directory, the server keeps exactly
    one allowed directory; it is an absolute path of plain segments (no
    empty, "." or ".." segment, no trailing separator), in lower case, and
    [normalizePath] leaves it as it is. *)
Theorem vaultDirectories_normalized (cwd homedir obsidianVaultPath : string) :
  Path.isAbsolute cwd = true ->
  exists segs,
    Forall plain segs
    /\ vaultDirectories cwd homedir obsidianVaultPath = [rooted segs]
    /\ Js.toLowerCase (rooted segs) = rooted segs
    /\ normalizePath (rooted segs) = rooted segs.
Proof.
  intros Hcwd.
  destruct (vaultDirectories_rooted cwd homedir obsidianVaultPath Hcwd)
    as (segs & Hsegs & Hdirs & Hlower).
  exists segs. repeat split; try assumption.
  unfold normalizePath.
  rewrite (NormalFacts.normalize_fixed (NormalFacts.rooted_normal Hsegs)).
  exact Hlower.
Qed.

Lemma absolutePath_is_rooted (cwd homedir requestedPath : string) :
  Path.isAbsolute cwd = true ->
  exists segs, Forall plain segs /\ absolutePath cwd homedir requestedPath = rooted segs.
Proof.
  intros Hcwd. unfold absolutePath.
  destruct (Path.isAbsolute (expandHome homedir requestedPath));
    apply NormalFacts.resolve_rooted; exact Hcwd.
Qed.

(** X11: in a process with an absolute working directory, the path
    [validatePath] checks and looks up is absolute and made of plain segments
    only, whatever was requested; normalizing it for the prefix test only
    puts it in lower case. *)
Theorem absolutePath_rooted (cwd homedir requestedPath : string) :
  Path.isAbsolute cwd = true ->
  exists segs,
    Forall plain segs
    /\ absolutePath cwd homedir requestedPath = rooted segs
    /\ normalizePath (absolutePath cwd homedir requestedPath)
       = Js.toLowerCase (absolutePath cwd homedir requestedPath).
Proof.
  intros Hcwd.
  destruct (absolutePath_is_rooted cwd homedir requestedPath Hcwd) as (segs & Hsegs & Heq).
  exists segs. split; [exact Hsegs|]. split; [exact Heq|].
  unfold normalizePath. rewrite Heq.
  rewrite (NormalFacts.normalize_fixed (NormalFacts.rooted_normal Hsegs)). reflexivity.
Qed.

(** X12: [expandHome] turns "~" into the home directory and "~/name" into
    the entry [name] of the home directory (for a home directory that is an
    absolute normal path), and leaves every other path, "~user/..." included,
    as it is. *)
Theorem expandHome_home (hsegs : list string) (name filepath : string) :
  Forall plain hsegs -> plain name ->
  expandHome (rooted hsegs) "~" = rooted hsegs
  /\ expandHome (rooted hsegs) ("~/" ++ name) = rooted (hsegs ++ [name])
  /\ (filepath <> "~" -> Js.startsWith filepath "~/" = false ->
      expandHome (rooted hsegs) filepath = filepath).
Proof.
  intros Hhome Hname. pose proof Hname as (Hne & _ & _ & Hfree). split; [|split].
  - unfold expandHome. simpl orb. cbv iota.
    change (Path.join [rooted hsegs; Js.slice_from 1 "~"])
      with (Path.normalize (rooted hsegs)).
    apply NormalFacts.normalize_fixed, NormalFacts.rooted_normal, Hhome.
  - unfold expandHome.
    change (Js.startsWith ("~/" ++ name) "~/") with true. simpl orb. cbv iota.
    change (Js.slice_from 1 ("~/" ++ name)) with ("/" ++ name).
    rewrite NormalFacts.join_rooted by (exact Hhome || discriminate).
    rewrite NormalFacts.split_cons_sep, (split_sep_free Path.sep name Hfree).
    simpl fold_left. rewrite NormalFacts.step_plain by exact Hname.
    change ("/" ++ name) with (String Path.sep name).
    rewrite NormalFacts.ends_with_slash_cons by exact Hne.
    rewrite (NormalFacts.ends_with_slash_solid (NormalFacts.plain_solid Hname)).
    rewrite NormalFacts.rooted_assemble
      by (apply Forall_app; split; [exact Hhome|constructor; [exact Hname|constructor]]).
    rewrite rev_app_distr. reflexivity.
  - intros Htilde Hprefix. unfold expandHome. rewrite Hprefix.
    destruct (String.eqb_spec filepath "~"); [contradiction|reflexivity].
Qed.

(** X13: when the configured vault path, with the home directory expanded,
    is an absolute normal path, the one allowed directory is that path in
    lower case, wherever the server was started. *)
Theorem vaultDirectories_of_config (cwd homedir obsidianVaultPath : string)
    (segs : list string) :
  Forall plain segs ->
  expandHome homedir obsidianVaultPath = rooted segs ->
  vaultDirectories cwd homedir obsidianVaultPath
  = [Js.toLowerCase (expandHome homedir obsidianVaultPath)].
Proof.
  intros Hsegs Hcfg. unfold vaultDirectories, normalizePath. rewrite Hcfg.
  rewrite NormalFacts.resolve_rooted_fixed by exact Hsegs.
  rewrite (NormalFacts.normalize_fixed (NormalFacts.rooted_normal Hsegs)).
  reflexivity.
Qed.

End NormalizedPaths.

(** ** The directory walks *)

Section WalkFacts.

(** Induction on a tree of entries, with the property at hand for every
    entry of a directory. *)
Lemma dirent_induction (P : dirent -> Prop) :
  (forall name, P (Other name)) ->
  (forall name entries, Forall P entries -> P (Directory name entries)) ->
  (forall name message, P (Unreadable name message)) ->
  forall entry, P entry.
Proof.
  intros HOther HDirectory HUnreadable. fix IH 1.
  intros [name|name entries|name message].
  - apply HOther.
  - apply HDirectory. induction entries as [|entry entries IHentries];
      constructor; [apply IH|exact IHentries].
  - apply HUnreadable.
Qed.

Variables (cwd homedir obsidianVaultPath : string).
Context {FS : Type} `{FileSystem FS}.
Variable fs : FS.
Variable RegExp_test : string -> string -> option bool.

Local Abbreviation validates' := (validates cwd homedir obsidianVaultPath fs).
Local Abbreviation visits' := (visits cwd homedir obsidianVaultPath fs).
Local Abbreviation search_entry' :=
  (search_entry cwd homedir obsidianVaultPath fs RegExp_test).
Local Abbreviation listDirs_entry' := (listDirs_entry cwd homedir obsidianVaultPath fs).
Local Abbreviation vault0 := (vaultDirectories_0 cwd homedir obsidianVaultPath).

Lemma visits_cons (cur : string) (entry : dirent) (entries : list dirent)
    (fullPath : string) (x : dirent) :
  visits' cur (entry :: entries) fullPath x
  <-> visits' cur [entry] fullPath x \/ visits' cur entries fullPath x.
Proof.
  split.
  - intros Hv. inversion Hv as [x' [Hin|Hin]|name below fullPath' x' [Hin|Hin] Hok Hbelow];
      subst.
    + left. apply visits_here. left. reflexivity.
    + right. apply visits_here. exact Hin.
    + left. eapply visits_below; [left; reflexivity|exact Hok|exact Hbelow].
    + right. eapply visits_below; [exact Hin|exact Hok|exact Hbelow].
  - intros [Hv|Hv].
    + inversion Hv as [x' [Hin|[]]|name below fullPath' x' [Hin|[]] Hok Hbelow]; subst.
      * apply visits_here. left. reflexivity.
      * eapply visits_below; [left; reflexivity|exact Hok|exact Hbelow].
    + inversion Hv as [x' Hin|name below fullPath' x' Hin Hok Hbelow]; subst.
      * apply visits_here. right. exact Hin.
      * eapply visits_below; [right; exact Hin|exact Hok|exact Hbelow].
Qed.

Lemma visits_at (cur : string) (entries : list dirent) (fullPath : string)
    (entry : dirent) :
  In entry entries ->
  fullPath = Path.join [cur; dirent_name entry] ->
  visits' cur entries fullPath entry.
Proof. intros Hin ->. apply visits_here, Hin. Qed.

Lemma visits_nil (cur fullPath : string) (x : dirent) : ~ visits' cur [] fullPath x.
Proof. intros Hv. inversion Hv as [x' []|name below fullPath' x' [] _ _]. Qed.

(** What makes [search] report the entry [x] found at [fullPath] as [r]. *)
Local Abbreviation reported query basePath fullPath x r :=
  (validates' fullPath = true
   /\ Js.endsWith (dirent_name x) ".md" = true
   /\ name_matches RegExp_test query (dirent_name x) = true
   /\ r = Js.remove_first fullPath basePath).

(** What a listing adds to the results of [search]. *)
Local Abbreviation search_adds entries :=
  (forall query basePath cur results r,
     In r (fold_left (search_entry' query basePath cur) entries results)
     <-> In r results
         \/ exists fullPath x,
              visits' cur entries fullPath x /\ reported query basePath fullPath x r).

Lemma search_adds_nil : search_adds [].
Proof.
  intros query basePath cur results r. simpl. split; [auto|].
  intros [Hin|(fullPath & x & Hv & _)]; [exact Hin|].
  exfalso. exact (visits_nil Hv).
Qed.

Lemma search_adds_cons (entry : dirent) (entries : list dirent) :
  search_adds [entry] -> search_adds entries -> search_adds (entry :: entries).
Proof.
  intros Hentry Hentries query basePath cur results r.
  change (fold_left (search_entry' query basePath cur) (entry :: entries) results)
    with (fold_left (search_entry' query basePath cur) entries
            (fold_left (search_entry' query basePath cur) [entry] results)).
  rewrite Hentries, Hentry. split.
  - intros [[Hin|(fullPath & x & Hv & Hr)]|(fullPath & x & Hv & Hr)].
    + left. exact Hin.
    + right. exists fullPath, x. split; [apply visits_cons; left; exact Hv|exact Hr].
    + right. exists fullPath, x. split; [apply visits_cons; right; exact Hv|exact Hr].
  - intros [Hin|(fullPath & x & Hv & Hr)]; [left; left; exact Hin|].
    apply visits_cons in Hv. destruct Hv as [Hv|Hv].
    + left. right. exists fullPath, x. auto.
    + right. exists fullPath, x. auto.
Qed.

Lemma search_adds_all (entries : list dirent) :
  Forall (fun entry => search_adds [entry]) entries -> search_adds entries.
Proof.
  induction 1 as [|entry entries Hentry _ IH];
    [apply search_adds_nil|apply search_adds_cons; assumption].
Qed.

Lemma search_adds_entry (entry : dirent) : search_adds [entry].
Proof.
  induction entry as [name|name entries IH|name message] using dirent_induction;
    intros query basePath cur results r; simpl fold_left.
  - (* an entry that is no directory *)
    split.
    + destruct (validates' (Path.join [cur; name])) eqn:Hok; [|auto].
      destruct (Js.endsWith name ".md" && name_matches RegExp_test query name)%bool
        eqn:Hmatch; [|auto].
      intros Hin. apply in_app_or in Hin. destruct Hin as [Hin|[<-|[]]]; [auto|].
      apply andb_true_iff in Hmatch. right.
      exists (Path.join [cur; name]), (Other name).
      split; [apply visits_at; [left|]; reflexivity|]. repeat split; tauto.
    + intros [Hin|(fullPath & x & Hv & Hok & Hmd & Hmatch & ->)].
      * destruct (validates' (Path.join [cur; name])); [|exact Hin].
        destruct (Js.endsWith name ".md" && name_matches RegExp_test query name)%bool;
          [apply in_or_app; left|]; exact Hin.
      * inversion Hv as [x' [Hx|[]]|n below f x' [Hin|[]] _ _]; subst; [|discriminate].
        simpl in *. rewrite Hok, Hmd, Hmatch. simpl.
        apply in_or_app. right. left. reflexivity.
  - (* a directory that can be read *)
    pose proof (search_adds_all IH) as Hbelow.
    split.
    + destruct (validates' (Path.join [cur; name])) eqn:Hok; [|auto].
      rewrite Hbelow.
      intros [Hin|(fullPath & x & Hv & Hr)].
      * destruct (Js.endsWith name ".md" && name_matches RegExp_test query name)%bool
          eqn:Hmatch; [|auto].
        apply in_app_or in Hin. destruct Hin as [Hin|[<-|[]]]; [auto|].
        apply andb_true_iff in Hmatch. right.
        exists (Path.join [cur; name]), (Directory name entries).
        split; [apply visits_at; [left|]; reflexivity|]. repeat split; tauto.
      * right. exists fullPath, x. split; [|exact Hr].
        eapply visits_below; [left; reflexivity|exact Hok|exact Hv].
    + intros [Hin|(fullPath & x & Hv & Hok & Hmd & Hmatch & ->)].
      * destruct (validates' (Path.join [cur; name])); [|exact Hin].
        apply Hbelow. left.
        destruct (Js.endsWith name ".md" && name_matches RegExp_test query name)%bool;
          [apply in_or_app; left|]; exact Hin.
      * inversion Hv as [x' [Hx|[]]|n below f x' [Hin|[]] Hdir Hsub]; subst.
        -- simpl in *. rewrite Hok. apply Hbelow. left.
           rewrite Hmd, Hmatch. simpl. apply in_or_app. right. left. reflexivity.
        -- injection Hin as -> ->. rewrite Hdir. apply Hbelow. right.
           exists fullPath, x. repeat split; assumption.
  - (* a directory that cannot be read *)
    split.
    + destruct (validates' (Path.join [cur; name])) eqn:Hok; [|auto].
      destruct (Js.endsWith name ".md" && name_matches RegExp_test query name)%bool
        eqn:Hmatch; [|auto].
      intros Hin. apply in_app_or in Hin. destruct Hin as [Hin|[<-|[]]]; [auto|].
      apply andb_true_iff in Hmatch. right.
      exists (Path.join [cur; name]), (Unreadable name message).
      split; [apply visits_at; [left|]; reflexivity|]. repeat split; tauto.
    + intros [Hin|(fullPath & x & Hv & Hok & Hmd & Hmatch & ->)].
      * destruct (validates' (Path.join [cur; name])); [|exact Hin].
        destruct (Js.endsWith name ".md" && name_matches RegExp_test query name)%bool;
          [apply in_or_app; left|]; exact Hin.
      * inversion Hv as [x' [Hx|[]]|n below f x' [Hin|[]] _ _]; subst; [|discriminate].
        simpl in *. rewrite Hok, Hmd, Hmatch. simpl.
        apply in_or_app. right. left. reflexivity.
Qed.

Lemma search_adds_listing (entries : list dirent) : search_adds entries.
Proof.
  apply search_adds_all, Forall_forall. intros entry _. apply search_adds_entry.
Qed.

(** What makes [listDirs] report the entry [x] found at [fullPath] as [r]. *)
Local Abbreviation listed fullPath x r :=
  (dirent_isDirectory x = true
   /\ validates' fullPath = true
   /\ r = Js.remove_first fullPath vault0).

(** What a listing adds to the directories of [listDirs]. *)
Local Abbreviation listDirs_adds entries :=
  (forall cur dirs r,
     In r (fold_left (listDirs_entry' cur) entries dirs)
     <-> In r dirs
         \/ exists fullPath x, visits' cur entries fullPath x /\ listed fullPath x r).

Lemma listDirs_adds_nil : listDirs_adds [].
Proof.
  intros cur dirs r. simpl. split; [auto|].
  intros [Hin|(fullPath & x & Hv & _)]; [exact Hin|].
  exfalso. exact (visits_nil Hv).
Qed.

Lemma listDirs_adds_cons (entry : dirent) (entries : list dirent) :
  listDirs_adds [entry] -> listDirs_adds entries -> listDirs_adds (entry :: entries).
Proof.
  intros Hentry Hentries cur dirs r.
  change (fold_left (listDirs_entry' cur) (entry :: entries) dirs)
    with (fold_left (listDirs_entry' cur) entries
            (fold_left (listDirs_entry' cur) [entry] dirs)).
  rewrite Hentries, Hentry. split.
  - intros [[Hin|(fullPath & x & Hv & Hr)]|(fullPath & x & Hv & Hr)].
    + left. exact Hin.
    + right. exists fullPath, x. split; [apply visits_cons; left; exact Hv|exact Hr].
    + right. exists fullPath, x. split; [apply visits_cons; right; exact Hv|exact Hr].
  - intros [Hin|(fullPath & x & Hv & Hr)]; [left; left; exact Hin|].
    apply visits_cons in Hv. destruct Hv as [Hv|Hv].
    + left. right. exists fullPath, x. auto.
    + right. exists fullPath, x. auto.
Qed.

Lemma listDirs_adds_all (entries : list dirent) :
  Forall (fun entry => listDirs_adds [entry]) entries -> listDirs_adds entries.
Proof.
  induction 1 as [|entry entries Hentry _ IH];
    [apply listDirs_adds_nil|apply listDirs_adds_cons; assumption].
Qed.

Lemma listDirs_adds_entry (entry : dirent) : listDirs_adds [entry].
Proof.
  induction entry as [name|name entries IH|name message] using dirent_induction;
    intros cur dirs r; simpl fold_left.
  - (* an entry that is no directory *)
    split; [auto|].
    intros [Hin|(fullPath & x & Hv & Hdir & _)]; [exact Hin|].
    inversion Hv as [x' [Hx|[]]|n below f x' [Hin|[]] _ _]; subst; discriminate.
  - (* a directory that can be read *)
    pose proof (listDirs_adds_all IH) as Hbelow.
    split.
    + destruct (validates' (Path.join [cur; name])) eqn:Hok; [|auto].
      rewrite Hbelow.
      intros [Hin|(fullPath & x & Hv & Hr)].
      * apply in_app_or in Hin. destruct Hin as [Hin|[<-|[]]]; [auto|].
        right. exists (Path.join [cur; name]), (Directory name entries).
        split; [apply visits_at; [left|]; reflexivity|]. auto.
      * right. exists fullPath, x. split; [|exact Hr].
        eapply visits_below; [left; reflexivity|exact Hok|exact Hv].
    + intros [Hin|(fullPath & x & Hv & Hdir & Hok & ->)].
      * destruct (validates' (Path.join [cur; name])); [|exact Hin].
        apply Hbelow. left. apply in_or_app. left. exact Hin.
      * inversion Hv as [x' [Hx|[]]|n below f x' [Hin|[]] Hvalid Hsub]; subst.
        -- simpl in *. rewrite Hok. apply Hbelow. left.
           apply in_or_app. right. left. reflexivity.
        -- injection Hin as -> ->. rewrite Hvalid. apply Hbelow. right.
           exists fullPath, x. repeat split; assumption.
  - (* a directory that cannot be read *)
    split.
    + destruct (validates' (Path.join [cur; name])) eqn:Hok; [|auto].
      intros Hin. apply in_app_or in Hin. destruct Hin as [Hin|[<-|[]]]; [auto|].
      right. exists (Path.join [cur; name]), (Unreadable name message).
      split; [apply visits_at; [left|]; reflexivity|]. auto.
    + intros [Hin|(fullPath & x & Hv & Hdir & Hok & ->)].
      * destruct (validates' (Path.join [cur; name])); [|exact Hin].
        apply in_or_app. left. exact Hin.
      * inversion Hv as [x' [Hx|[]]|n below f x' [Hin|[]] _ _]; subst; [|discriminate].
        simpl in *. rewrite Hok. apply in_or_app. right. left. reflexivity.
Qed.

Lemma listDirs_adds_listing (entries : list dirent) : listDirs_adds entries.
Proof.
  apply listDirs_adds_all, Forall_forall. intros entry _. apply listDirs_adds_entry.
Qed.

(** A request with a segment that starts with "." is thrown out at once. *)
Lemma validatePath_hidden_throw (requestedPath : string) :
  hasHiddenPart requestedPath = true ->
  validatePath cwd homedir obsidianVaultPath requestedPath
  = Throw "Access denied - hidden files/directories not allowed".
Proof. intros Hhidden. unfold validatePath. rewrite Hhidden. reflexivity. Qed.

Lemma hasHiddenPart_joined (cur arg seg : string) :
  Forall Normal.plain (Js.split Path.sep arg) ->
  In seg (Js.split Path.sep arg) ->
  Js.startsWith seg "." = true ->
  hasHiddenPart (Path.join [cur; arg]) = true.
Proof.
  intros Hplain Hin Hdot.
  destruct (NormalFacts.join_plain_segments cur arg Hplain) as [front Hsplit].
  unfold hasHiddenPart, Js.some. rewrite Hsplit, existsb_app.
  apply orb_true_iff. right. apply existsb_exists. exists seg. auto.
Qed.

Lemma hidden_entry_not_validated (cur name : string) :
  Normal.plain name -> Js.startsWith name "." = true ->
  validates' (Path.join [cur; name]) = false.
Proof.
  intros Hplain Hdot. unfold validates.
  rewrite validatePath_hidden_throw; [reflexivity|].
  eapply hasHiddenPart_joined; [| |exact Hdot].
  - rewrite (split_sep_free Path.sep name); [|apply Hplain].
    constructor; [exact Hplain|constructor].
  - rewrite (split_sep_free Path.sep name); [left; reflexivity|apply Hplain].
Qed.

(** X14: [searchNotes] fails exactly when the allowed directory cannot be
    read, with the message of that failure.  Otherwise its results are the
    entries the walk comes to (going down through the directories that
    validate) that validate themselves, whose name ends in ".md" and matches
    the query, each given as its full path with the first occurrence of the
    allowed directory taken out. *)
Theorem searchNotes_results (readdir : string -> result (list dirent))
    (query : string) :
  match readdir vault0 with
  | Err e =>
      searchNotes cwd homedir obsidianVaultPath fs RegExp_test readdir query = Err e
  | Ok entries =>
      exists results,
        searchNotes cwd homedir obsidianVaultPath fs RegExp_test readdir query
          = Ok results
        /\ forall r,
             In r results
             <-> exists fullPath x,
                   visits' vault0 entries fullPath x
                   /\ validates' fullPath = true
                   /\ Js.endsWith (dirent_name x) ".md" = true
                   /\ name_matches RegExp_test query (dirent_name x) = true
                   /\ r = Js.remove_first fullPath vault0
  end.
Proof.
  unfold searchNotes, vaultDirectories_0, vaultDirectories. simpl nth. simpl fold_left.
  destruct (readdir _) as [entries|e]; simpl; [|reflexivity].
  eexists. split; [reflexivity|].
  intros r. rewrite (search_adds_listing entries). simpl In. tauto.
Qed.

(** X15: an entry whose name starts with "." adds nothing to either walk: it
    is not reported, and when it is a directory nothing below it is looked
    at. *)
Theorem walks_skip_hidden_entries (entry : dirent) :
  Normal.plain (dirent_name entry) ->
  Js.startsWith (dirent_name entry) "." = true ->
  (forall query basePath cur results,
     search_entry' query basePath cur results entry = results)
  /\ (forall cur dirs, listDirs_entry' cur dirs entry = dirs).
Proof.
  intros Hplain Hdot. split.
  - intros query basePath cur results.
    destruct entry; simpl in *;
      rewrite (hidden_entry_not_validated cur Hplain Hdot); reflexivity.
  - intros cur dirs.
    destruct entry; simpl in *; [reflexivity| |];
      rewrite (hidden_entry_not_validated cur Hplain Hdot); reflexivity.
Qed.

(** X16: [listDirs] fails exactly when the directory it starts from cannot be
    read.  Otherwise it lists the directories the walk comes to that
    validate, those that cannot be read included, each as its full path with
    the first occurrence of the allowed directory taken out; an entry that is
    no directory is never listed. *)
Theorem listDirs_results (listing : result (list dirent)) (currentPath : string) :
  match listing with
  | Err e => listDirs cwd homedir obsidianVaultPath fs listing currentPath = Err e
  | Ok entries =>
      exists dirs,
        listDirs cwd homedir obsidianVaultPath fs listing currentPath = Ok dirs
        /\ forall r,
             In r dirs
             <-> exists fullPath x,
                   visits' currentPath entries fullPath x
                   /\ dirent_isDirectory x = true
                   /\ validates' fullPath = true
                   /\ r = Js.remove_first fullPath vault0
  end.
Proof.
  destruct listing as [entries|e]; [|reflexivity].
  eexists. split; [reflexivity|].
  intros r. rewrite (listDirs_adds_listing entries). simpl In. tauto.
Qed.

End WalkFacts.

(** ** Substrings and prefixes *)

Section SubstringFacts.

Lemma startsWith_app (a b : string) : Js.startsWith (a ++ b) a = true.
Proof.
  induction a as [|c a IH]; [reflexivity|]. simpl.
  rewrite Ascii.eqb_refl, IH. reflexivity.
Qed.

Lemma includes_unfold (s sub : string) :
  Js.includes s sub
  = orb (Js.startsWith s sub)
        match s with
        | EmptyString => false
        | String _ s' => Js.includes s' sub
        end.
Proof. destruct s; reflexivity. Qed.

Lemma includes_app (before sub after : string) :
  Js.includes (before ++ sub ++ after) sub = true.
Proof.
  induction before as [|c before IH].
  - change (EmptyString ++ sub ++ after) with (sub ++ after).
    rewrite includes_unfold, startsWith_app. reflexivity.
  - change (String c before ++ sub ++ after) with (String c (before ++ sub ++ after)).
    rewrite includes_unfold, IH. apply orb_true_r.
Qed.

Lemma slice_from_app (a b : string) : Js.slice_from (String.length a) (a ++ b) = b.
Proof. induction a as [|c a IH]; [destruct b; reflexivity|exact IH]. Qed.

Lemma remove_first_unfold (s pattern : string) :
  Js.remove_first s pattern
  = if Js.startsWith s pattern then Js.slice_from (String.length pattern) s
    else match s with
         | EmptyString => EmptyString
         | String c s' => String c (Js.remove_first s' pattern)
         end.
Proof. destruct s; reflexivity. Qed.

(** Taking a prefix out of a string leaves the rest. *)
Lemma remove_first_prefix (a b : string) : Js.remove_first (a ++ b) a = b.
Proof. rewrite remove_first_unfold, startsWith_app. apply slice_from_app. Qed.

End SubstringFacts.

(** ** What the walks report *)

Section WalkReports.

Import Normal.

Variables (cwd homedir obsidianVaultPath : string).
Context {FS : Type} `{FileSystem FS}.
Variable fs : FS.
Variable RegExp_test : string -> string -> option bool.

Local Abbreviation validates' := (validates cwd homedir obsidianVaultPath fs).
Local Abbreviation visits' := (visits cwd homedir obsidianVaultPath fs).
Local Abbreviation vault0 := (vaultDirectories_0 cwd homedir obsidianVaultPath).

(** X17: among names and queries of ASCII characters, where lower-casing
    folds the letters A-Z one by one, a name matches the query as soon as it
    contains it, letter case aside, whatever the query is worth as a pattern:
    the pattern is not consulted, so a query that is no regular expression
    matches as well.  (Beyond ASCII the lower-case form of a letter may
    depend on what follows it, and containment no longer survives
    lower-casing.) *)
Theorem name_matches_substring (query before middle after : string) :
  Js.is_ascii (before ++ middle ++ after) = true ->
  Js.is_ascii query = true ->
  Js.toLowerCase middle = Js.toLowerCase query ->
  name_matches RegExp_test query (before ++ middle ++ after) = true.
Proof.
  intros _ _ Hsame. unfold name_matches.
  rewrite !toLowerCase_app, Hsame, includes_app. reflexivity.
Qed.

Lemma join_app (l1 l2 : list string) :
  l1 <> [] -> l2 <> [] ->
  Js.join "/" (l1 ++ l2) = Js.join "/" l1 ++ "/" ++ Js.join "/" l2.
Proof.
  intros Hl1 Hl2. induction l1 as [|s l1 IH]; [congruence|].
  destruct l1 as [|s' l1'].
  - destruct l2 as [|t l2']; [congruence|]. reflexivity.
  - change ((s :: s' :: l1') ++ l2)%list with (s :: s' :: (l1' ++ l2))%list.
    rewrite !NormalFacts.join_cons2.
    change (s' :: (l1' ++ l2))%list with ((s' :: l1') ++ l2)%list.
    rewrite IH by discriminate.
    rewrite !NormalFacts.string_app_assoc. reflexivity.
Qed.

(** The path below an absolute normal path, seen from that path. *)
Lemma rooted_app (segs rest : list string) :
  rest <> [] ->
  rooted (segs ++ rest)
  = rooted segs ++ (match segs with [] => EmptyString | _ => "/" end)
    ++ Js.join "/" rest.
Proof.
  intros Hrest. unfold rooted. destruct segs as [|s segs']; [reflexivity|].
  rewrite join_app by (discriminate || exact Hrest).
  rewrite !NormalFacts.string_app_assoc. reflexivity.
Qed.

Lemma remove_first_rooted (segs rest : list string) :
  rest <> [] ->
  Js.remove_first (rooted (segs ++ rest)) (rooted segs)
  = (match segs with [] => EmptyString | _ => "/" end) ++ Js.join "/" rest.
Proof. intros Hrest. rewrite rooted_app by exact Hrest. apply remove_first_prefix. Qed.

Lemma well_named_plain (entry : dirent) : well_named entry -> plain (dirent_name entry).
Proof. intros Hw. inversion Hw; assumption. Qed.

(** From an absolute normal path the walk comes to its entries at the paths
    that append the names on the way down. *)
Lemma visits_rooted (entries : list dirent) (cur fullPath : string) (x : dirent) :
  visits' cur entries fullPath x ->
  forall segs,
    cur = rooted segs -> Forall plain segs -> Forall well_named entries ->
    exists chain,
      chain_to entries chain x /\ chain <> [] /\ fullPath = rooted (segs ++ chain).
Proof.
  induction 1 as [cur entries x Hin|cur entries name below fullPath x Hin Hok Hbelow IH];
    intros segs -> Hsegs Hnamed.
  - exists [dirent_name x]. split; [apply chain_here, Hin|]. split; [discriminate|].
    apply NormalFacts.join_rooted_name; [exact Hsegs|].
    apply well_named_plain. rewrite Forall_forall in Hnamed. apply Hnamed, Hin.
  - assert (Hdir : well_named (Directory name below))
      by (rewrite Forall_forall in Hnamed; apply Hnamed, Hin).
    inversion Hdir as [|? ? Hname Hsub|]; subst.
    destruct (IH (segs ++ [name])%list) as (chain & Hchain & Hne & ->).
    + apply NormalFacts.join_rooted_name; assumption.
    + apply Forall_app. split; [exact Hsegs|constructor; [exact Hname|constructor]].
    + exact Hsub.
    + exists (name :: chain). split; [eapply chain_below; eassumption|].
      split; [discriminate|]. rewrite <- app_assoc. reflexivity.
Qed.

Lemma vault0_rooted :
  Path.isAbsolute cwd = true ->
  exists segs, Forall plain segs /\ vault0 = rooted segs.
Proof.
  intros Hcwd.
  destruct (vaultDirectories_rooted cwd homedir obsidianVaultPath Hcwd)
    as (segs & Hsegs & Hdirs & _).
  exists segs. split; [exact Hsegs|].
  unfold vaultDirectories_0. rewrite Hdirs. reflexivity.
Qed.

(** X18: with an absolute working directory and entries named as [readdir]
    names them, every result of [searchNotes] is the chain of names from the
    allowed directory down to a note whose name ends in ".md", joined by "/"
    and, unless the allowed directory is the root directory itself, led by a
    "/". *)
Theorem searchNotes_results_relative (readdir : string -> result (list dirent))
    (query : string) (entries : list dirent) (results : list string) :
  Path.isAbsolute cwd = true ->
  readdir vault0 = Ok entries ->
  Forall well_named entries ->
  searchNotes cwd homedir obsidianVaultPath fs RegExp_test readdir query = Ok results ->
  exists segs,
    Forall plain segs /\ vault0 = rooted segs
    /\ forall r,
         In r results ->
         exists chain x,
           chain_to entries chain x
           /\ Js.endsWith (dirent_name x) ".md" = true
           /\ r = (match segs with [] => EmptyString | _ => "/" end)
                  ++ Js.join "/" chain.
Proof.
  intros Hcwd Hread Hnamed Hsearch.
  destruct (vault0_rooted Hcwd) as (segs & Hsegs & Hroot).
  exists segs. split; [exact Hsegs|]. split; [exact Hroot|].
  revert Hsearch. unfold searchNotes.
  change (vaultDirectories cwd homedir obsidianVaultPath) with [vault0].
  simpl fold_left. rewrite Hread. simpl.
  intros Hresults. injection Hresults as <-.
  intros r Hin.
  apply (search_adds_listing cwd homedir obsidianVaultPath fs RegExp_test entries) in Hin.
  destruct Hin as [[]|(fullPath & x & Hv & _ & Hmd & _ & ->)].
  destruct (visits_rooted Hv Hroot Hsegs Hnamed) as (chain & Hchain & Hne & ->).
  exists chain, x. split; [exact Hchain|]. split; [exact Hmd|].
  rewrite Hroot. apply remove_first_rooted, Hne.
Qed.

(** X19: likewise, when [listDirs] starts from a directory below the allowed
    directory, written as the allowed directory is stored, every directory it
    lists is the chain of names from the allowed directory down to it, joined
    by "/" and led by a "/" (unless the allowed directory is the root). *)
Theorem listDirs_results_relative (entries : list dirent) (below : list string)
    (segs : list string) (dirs : list string) :
  Forall plain segs -> vault0 = rooted segs ->
  Forall plain below ->
  Forall well_named entries ->
  listDirs cwd homedir obsidianVaultPath fs (Ok entries) (rooted (segs ++ below))
    = Ok dirs ->
  forall r,
    In r dirs ->
    exists chain x,
      chain_to entries chain x
      /\ dirent_isDirectory x = true
      /\ r = (match segs with [] => EmptyString | _ => "/" end)
             ++ Js.join "/" (below ++ chain).
Proof.
  intros Hsegs Hroot Hbelow Hnamed Hlist r Hin.
  simpl in Hlist. injection Hlist as <-.
  apply (listDirs_adds_listing cwd homedir obsidianVaultPath fs entries) in Hin.
  destruct Hin as [[]|(fullPath & x & Hv & Hdir & _ & ->)].
  destruct (visits_rooted Hv (segs := (segs ++ below)%list) eq_refl) as (chain & Hchain & Hne & ->);
    [apply Forall_app; split; assumption|exact Hnamed|].
  exists chain, x. split; [exact Hchain|]. split; [exact Hdir|].
  rewrite Hroot, <- app_assoc. apply remove_first_rooted.
  intros Hnil. apply app_eq_nil in Hnil. destruct Hnil as [_ Hnil]. exact (Hne Hnil).
Qed.

End WalkReports.

(** ** The walks behind the tools *)

Section WalkTools.

Variables (cwd homedir obsidianVaultPath : string).
Context {FS : Type} `{FileSystem FS}.
Variable fs : FS.
Variable RegExp_test : string -> string -> option bool.

(** What [readdir] answers for a directory, all the way down. *)
Variable readdir : string -> result (list dirent).

Local Abbreviation vault0 := (vaultDirectories_0 cwd homedir obsidianVaultPath).

(** The two walks as the handlers call them. *)
Local Abbreviation searchNotes' :=
  (fun query =>
     settle (searchNotes cwd homedir obsidianVaultPath fs RegExp_test readdir query)).
Local Abbreviation listDirs' :=
  (fun validPath =>
     settle (listDirs cwd homedir obsidianVaultPath fs (readdir validPath) validPath)).
Local Abbreviation call_tool' :=
  (call_tool cwd homedir obsidianVaultPath searchNotes' listDirs').

Lemma run_settle {A} (r : result A) : run (settle r) fs = (r, fs).
Proof. destruct r; reflexivity. Qed.

Lemma searchNotes_unfold (query : string) :
  searchNotes cwd homedir obsidianVaultPath fs RegExp_test readdir query
  = match readdir vault0 with
    | Ok entries =>
        Ok (fold_left
              (search_entry cwd homedir obsidianVaultPath fs RegExp_test
                 query vault0 vault0) entries [])
    | Err e => Err e
    end.
Proof.
  unfold searchNotes.
  change (vaultDirectories cwd homedir obsidianVaultPath) with [vault0].
  simpl fold_left. destruct (readdir vault0); reflexivity.
Qed.

(** X20: the search tool answers "Error: " and the message, with the error
    flag, when the allowed directory cannot be read; "No matches found",
    without the flag, when the allowed directory is empty; and otherwise the
    text made from the results of the walk.  It never changes the
    filesystem. *)
Theorem search_tool_outcomes (query : string) :
  (forall e, readdir vault0 = Err e ->
     run (call_tool' (obsidian_search_notes_req query)) fs
     = (Ok {| text := "Error: " ++ e; isError := true |}, fs))
  /\ (readdir vault0 = Ok [] ->
      run (call_tool' (obsidian_search_notes_req query)) fs
      = (Ok {| text := "No matches found"; isError := false |}, fs))
  /\ (forall results,
        searchNotes cwd homedir obsidianVaultPath fs RegExp_test readdir query
          = Ok results ->
        run (call_tool' (obsidian_search_notes_req query)) fs
        = (Ok {| text := search_notes_text results; isError := false |}, fs)).
Proof.
  unfold call_tool, obsidian_search_notes.
  split; [|split].
  - intros e Hread.
    rewrite run_try_catch, run_bind, run_settle, searchNotes_unfold, Hread.
    reflexivity.
  - intros Hread.
    rewrite run_try_catch, run_bind, run_settle, searchNotes_unfold, Hread.
    reflexivity.
  - intros results Hsearch.
    rewrite run_try_catch, run_bind, run_settle, Hsearch. reflexivity.
Qed.

Lemma listDirs_no_directories (cur : string) (entries : list dirent) (dirs : list string) :
  (forall entry, In entry entries -> dirent_isDirectory entry = false) ->
  fold_left (listDirs_entry cwd homedir obsidianVaultPath fs cur) entries dirs = dirs.
Proof.
  revert dirs. induction entries as [|entry entries IH]; intros dirs Hfiles;
    [reflexivity|].
  simpl fold_left.
  replace (listDirs_entry cwd homedir obsidianVaultPath fs cur dirs entry) with dirs.
  - apply IH. intros x Hx. apply Hfiles. right. exact Hx.
  - destruct entry; simpl; try reflexivity;
      (assert (Hdir : dirent_isDirectory _ = false) by (apply Hfiles; left; reflexivity);
       discriminate Hdir).
Qed.

(** X21: once the path given to the directory tool validates, the tool
    answers "Error: " and the message, with the error flag, when the
    validated directory cannot be read; the empty text when nothing in it is
    a directory; and otherwise the listed directories, one per line.  It
    never changes the filesystem. *)
Theorem read_notes_dir_tool_outcomes (path validPath : string) :
  fst (run (validatePath cwd homedir obsidianVaultPath (Path.join [vault0; path])) fs)
    = Ok validPath ->
  (forall e, readdir validPath = Err e ->
     run (call_tool' (obsidian_read_notes_dir_req path)) fs
     = (Ok {| text := "Error: " ++ e; isError := true |}, fs))
  /\ (forall entries, readdir validPath = Ok entries ->
      run (call_tool' (obsidian_read_notes_dir_req path)) fs
      = (Ok {| text := Js.join nl
                 (fold_left (listDirs_entry cwd homedir obsidianVaultPath fs validPath)
                    entries []);
               isError := false |}, fs)
      /\ ((forall entry, In entry entries -> dirent_isDirectory entry = false) ->
          run (call_tool' (obsidian_read_notes_dir_req path)) fs
          = (Ok {| text := EmptyString; isError := false |}, fs))).
Proof.
  rewrite run_validatePath. simpl fst. intros Hvalid.
  unfold call_tool, obsidian_read_notes_dir. split.
  - intros e Hread.
    rewrite run_try_catch, run_bind, run_validatePath, Hvalid.
    rewrite run_bind, run_settle, Hread. reflexivity.
  - intros entries Hread.
    assert (Hrun :
      run (try_catch
             (validPath0 <- validatePath cwd homedir obsidianVaultPath
                              (Path.join [vault0; path]) ;;
              dirs <- listDirs' validPath0 ;;
              Ret {| text := Js.join nl dirs; isError := false |})
             (fun errorMessage =>
                Ret {| text := "Error: " ++ errorMessage; isError := true |})) fs
      = (Ok {| text := Js.join nl
                 (fold_left (listDirs_entry cwd homedir obsidianVaultPath fs validPath)
                    entries []);
               isError := false |}, fs)).
    { rewrite run_try_catch, run_bind, run_validatePath, Hvalid.
      rewrite run_bind, run_settle, Hread. reflexivity. }
    split; [exact Hrun|].
    intros Hfiles. rewrite Hrun, listDirs_no_directories by exact Hfiles. reflexivity.
Qed.

End WalkTools.

(** ** What the prefix test and the join let through *)

Section PrefixTest.

Import Normal.

Variables (cwd homedir obsidianVaultPath : string).
Context {FS : Type} `{FileSystem FS}.

Local Abbreviation vault0 := (vaultDirectories_0 cwd homedir obsidianVaultPath).

Lemma isAllowed_extension (suffix : string) :
  isAllowed cwd homedir obsidianVaultPath (vault0 ++ suffix) = true.
Proof.
  unfold isAllowed, Js.some.
  change (vaultDirectories cwd homedir obsidianVaultPath) with [vault0].
  simpl existsb. rewrite startsWith_app. reflexivity.
Qed.

(** X22: the prefix test compares strings, not directories: in a process with
    an absolute working directory, a path without hidden segment that is its
    own real path (it exists and goes through no link) and whose lower-case
    form merely begins with the allowed directory as a string is accepted,
    whatever follows that beginning (a longer name of a sibling directory
    included). *)
Theorem validatePath_prefix_only (fs : FS) (requestedPath suffix : string) :
  Path.isAbsolute cwd = true ->
  hasHiddenPart requestedPath = false ->
  Js.toLowerCase (absolutePath cwd homedir requestedPath) = vault0 ++ suffix ->
  fs_realpath fs (absolutePath cwd homedir requestedPath)
    = Ok (absolutePath cwd homedir requestedPath) ->
  run (validatePath cwd homedir obsidianVaultPath requestedPath) fs
  = (Ok (absolutePath cwd homedir requestedPath), fs).
Proof.
  intros Hcwd Hhidden Hprefix Hreal.
  assert (Hnormal : normalizePath (absolutePath cwd homedir requestedPath)
                    = vault0 ++ suffix).
  { destruct (absolutePath_is_rooted cwd homedir requestedPath Hcwd)
      as (segs & Hsegs & Heq).
    unfold normalizePath. rewrite <- Hprefix, Heq.
    rewrite (NormalFacts.normalize_fixed (NormalFacts.rooted_normal Hsegs)).
    reflexivity. }
  rewrite run_validatePath. f_equal. unfold validatePath_outcome.
  rewrite Hhidden, Hnormal, isAllowed_extension, Hreal, Hnormal, isAllowed_extension.
  reflexivity.
Qed.

Lemma split_rooted_segments (segs : list string) :
  segs <> [] -> Forall plain segs ->
  Js.split Path.sep (rooted segs) = EmptyString :: segs.
Proof.
  intros Hne Hsegs. unfold rooted.
  rewrite NormalFacts.split_cons_sep, (split_join Path.sep); [reflexivity|exact Hne|].
  apply NormalFacts.solid_sep_free. eapply Forall_impl; [|exact Hsegs].
  apply NormalFacts.plain_solid.
Qed.

(** X23: the handlers join their argument onto the allowed directory before
    anything is checked, so an argument that begins with "../" leaves the
    allowed directory: what is validated is a path beside it, and the ".."
    is gone before the hidden-segment test looks at the path. *)
Theorem handler_argument_climbs (init : list string) (last rest : string) :
  Forall plain init -> plain last ->
  Forall plain (Js.split Path.sep rest) ->
  vault0 = rooted (init ++ [last]) ->
  Path.join [vault0; "../" ++ rest] = rooted (init ++ Js.split Path.sep rest)
  /\ (Forall (fun seg => Js.startsWith seg "." = false)
        (init ++ Js.split Path.sep rest) ->
      hasHiddenPart (Path.join [vault0; "../" ++ rest]) = false).
Proof.
  intros Hinit Hlast Hrest Hroot.
  destruct (NormalFacts.split_first_solid rest Hrest) as (Hne & _ & Hend).
  assert (Hall : Forall plain (init ++ Js.split Path.sep rest))
    by (apply Forall_app; split; assumption).
  assert (Hjoin : Path.join [vault0; "../" ++ rest]
                  = rooted (init ++ Js.split Path.sep rest)).
  { rewrite Hroot, NormalFacts.join_rooted;
      [|apply Forall_app; split; [exact Hinit|constructor; [exact Hlast|constructor]]
       |discriminate].
    change ("../" ++ rest) with (".." ++ String Path.sep rest).
    rewrite split_app_sep.
    change (Js.split Path.sep "..") with [".."].
    rewrite rev_app_distr. simpl rev. simpl app. simpl fold_left.
    replace (Path.normalize_step false (last :: rev init) "..") with (rev init).
    - rewrite NormalFacts.fold_plain by exact Hrest.
      rewrite NormalFacts.ends_with_slash_app by discriminate.
      rewrite NormalFacts.ends_with_slash_cons, Hend by exact Hne.
      rewrite NormalFacts.rooted_assemble by exact Hall.
      rewrite rev_app_distr. reflexivity.
    - unfold Path.normalize_step. simpl.
      destruct Hlast as (_ & _ & Hdots & _).
      destruct (String.eqb_spec last ".."); [contradiction|reflexivity]. }
  split; [exact Hjoin|].
  intros Hnodot. rewrite Hjoin. unfold hasHiddenPart, Js.some.
  rewrite split_rooted_segments; [|intros Hnil | exact Hall].
  - simpl existsb. apply not_true_is_false. intros Hex.
    apply existsb_exists in Hex. destruct Hex as (seg & Hin & Hdot).
    rewrite Forall_forall in Hnodot. specialize (Hnodot seg Hin).
    simpl in Hnodot, Hdot. congruence.
  - apply app_eq_nil in Hnil. destruct Hnil as [_ Hnil].
    exact (split_not_nil Path.sep rest Hnil).
Qed.

End PrefixTest.

(** ** The parent directory *)

Section Dirname.

Import Normal.

Lemma list_ascii_app (a b : string) :
  list_ascii_of_string (a ++ b)
  = (list_ascii_of_string a ++ list_ascii_of_string b)%list.
Proof. induction a as [|c a IH]; simpl; [reflexivity|]. rewrite IH. reflexivity. Qed.

Lemma length_list_ascii (s : string) :
  length (list_ascii_of_string s) = String.length s.
Proof. induction s as [|c s IH]; simpl; [reflexivity|]. rewrite IH. reflexivity. Qed.

Lemma length_string_app (a b : string) :
  String.length (a ++ b) = String.length a + String.length b.
Proof. induction a as [|c a IH]; simpl; [reflexivity|]. rewrite IH. reflexivity. Qed.

Lemma sep_free_chars (s : string) :
  Js.sep_free Path.sep s ->
  Forall (fun c => Ascii.eqb c Path.sep = false) (list_ascii_of_string s).
Proof.
  induction s as [|c s IH]; simpl; [constructor|].
  intros [Hc Hs]. constructor; [exact Hc|exact (IH Hs)].
Qed.

(** The scan of [path.dirname] runs over a name without finding an end. *)
Lemma dirname_end_name (chars : list ascii) (i : nat) (matchedSlash : bool) :
  Forall (fun c => Ascii.eqb c Path.sep = false) chars ->
  Path.dirname_end chars i matchedSlash = None.
Proof.
  intros Hchars. revert i matchedSlash.
  induction Hchars as [|c chars Hc _ IH]; intros i matchedSlash; [reflexivity|].
  simpl. rewrite Hc. apply IH.
Qed.

(** ... and ends at the separator before it. *)
Lemma dirname_end_before_name (chars rest : list ascii) (i : nat) (matchedSlash : bool) :
  Forall (fun c => Ascii.eqb c Path.sep = false) chars ->
  chars <> [] \/ matchedSlash = false ->
  Path.dirname_end (chars ++ Path.sep :: rest) i matchedSlash
  = Some (i - length chars).
Proof.
  intros Hchars. revert i matchedSlash.
  induction Hchars as [|c chars Hc _ IH]; intros i matchedSlash Hseen.
  - destruct Hseen as [Hne| ->]; [congruence|]. simpl.
    rewrite Nat.sub_0_r. reflexivity.
  - simpl. rewrite Hc, IH by (right; reflexivity). f_equal. lia.
Qed.

Lemma slice_to_app (a b : string) : Js.slice_to (String.length a) (a ++ b) = a.
Proof. induction a as [|c a IH]; [destruct b; reflexivity|]. simpl. rewrite IH. reflexivity. Qed.

(** [path.dirname] of an absolute normal path drops its last segment. *)
Lemma dirname_rooted (segs : list string) (name : string) :
  Forall plain segs -> plain name ->
  Path.dirname (rooted (segs ++ [name])) = rooted segs.
Proof.
  intros Hsegs Hname. pose proof Hname as (Hne & _ & _ & Hfree).
  assert (Hchars : list_ascii_of_string name <> [])
    by (destruct name; [congruence|discriminate]).
  destruct segs as [|seg segs'] eqn:Hshape.
  - simpl app. unfold rooted, Path.dirname. simpl Js.join. simpl append.
    cbv beta iota. rewrite dirname_end_name; [reflexivity|].
    apply Forall_rev, sep_free_chars, Hfree.
  - rewrite <- Hshape in *.
    assert (Hsegs_ne : segs <> []) by (rewrite Hshape; discriminate).
    unfold rooted. rewrite join_app by (discriminate || exact Hsegs_ne).
    change (Js.join "/" [name]) with name.
    set (pre := Js.join "/" segs).
    assert (Hpre : pre <> EmptyString).
    { apply NormalFacts.join_not_empty; [exact Hsegs_ne|].
      eapply Forall_impl; [|exact Hsegs]. apply NormalFacts.plain_solid. }
    unfold Path.dirname. simpl append. cbv beta iota.
    simpl Path.starts_with_slash.
    change (pre ++ String "/" name) with (pre ++ String Path.sep name).
    rewrite list_ascii_app. simpl list_ascii_of_string.
    rewrite rev_app_distr. simpl rev. rewrite <- app_assoc. simpl app.
    rewrite dirname_end_before_name;
      [|apply Forall_rev, sep_free_chars, Hfree
       |left; intros Hnil; apply Hchars;
        rewrite <- (rev_involutive (list_ascii_of_string name)), Hnil; reflexivity].
    rewrite length_rev, length_list_ascii, length_string_app. simpl String.length.
    replace (String.length pre + S (String.length name) - String.length name)
      with (S (String.length pre)) by lia.
    replace (Nat.eqb (S (String.length pre)) 1) with false.
    + simpl andb. cbv iota.
      change (Js.slice_to (S (String.length pre)) (String "/" (pre ++ String Path.sep name)))
        with (String "/" (Js.slice_to (String.length pre) (pre ++ String Path.sep name))).
      rewrite slice_to_app. reflexivity.
    + symmetry. apply Nat.eqb_neq. destruct pre; [congruence|simpl; lia].
Qed.

End Dirname.

(** ** New notes and hidden arguments *)

Section NewAndHidden.

Import Normal.

Variables (cwd homedir obsidianVaultPath : string).
Context {FS : Type} `{FileSystem FS}.

Local Abbreviation vault0 := (vaultDirectories_0 cwd homedir obsidianVaultPath).
Local Abbreviation validatePath' := (validatePath cwd homedir obsidianVaultPath).

(** X24: for a path that passed the hidden-segment test and the prefix test
    and does not resolve, only the directory that directly holds it is
    consulted: when that one does not resolve either, the request fails with
    "Parent directory does not exist: " and that directory, after exactly
    the two lookups, whatever exists further up. *)
Theorem validatePath_missing_parent (fs : FS) (requestedPath : string)
    (segs : list string) (name e : string) :
  Forall plain segs -> plain name ->
  absolutePath cwd homedir requestedPath = rooted (segs ++ [name]) ->
  hasHiddenPart requestedPath = false ->
  isAllowed cwd homedir obsidianVaultPath
    (normalizePath (absolutePath cwd homedir requestedPath)) = true ->
  (forall r, fs_realpath fs (absolutePath cwd homedir requestedPath) <> Ok r) ->
  fs_realpath fs (rooted segs) = Err e ->
  run (validatePath' requestedPath) fs
    = (Err ("Parent directory does not exist: " ++ rooted segs), fs)
  /\ calls (validatePath' requestedPath) fs
     = [CallRealpath (rooted (segs ++ [name])); CallRealpath (rooted segs)].
Proof.
  intros Hsegs Hname Habs Hhidden Hprefix Hnone Hparent.
  pose proof (dirname_rooted Hsegs Hname) as Hdir.
  split.
  - rewrite run_validatePath. f_equal.
    unfold validatePath_outcome, parent_outcome. rewrite Hhidden, Hprefix.
    destruct (fs_realpath fs (absolutePath cwd homedir requestedPath)) as [r|e'] eqn:Hreal;
      [exfalso; exact (Hnone r eq_refl)|].
    rewrite Habs, Hdir, Hparent. reflexivity.
  - unfold validatePath. rewrite Hhidden, Hprefix. simpl.
    destruct (fs_realpath fs (absolutePath cwd homedir requestedPath)) as [r|e'] eqn:Hreal;
      [exfalso; exact (Hnone r eq_refl)|].
    simpl. rewrite Habs, Hdir. simpl. rewrite Hparent. reflexivity.
Qed.

(** X25: an argument made of plain segments, one of which starts with ".",
    is refused by the three operations that take a path before anything is
    looked up: the read yields the hidden-files error for that item, the
    write answers with the guidance, the directory listing throws the
    hidden-files error. *)
Theorem hidden_argument_rejected (fs : FS) (arg seg content : string)
    (listDirs : string -> prog (list string)) :
  Forall plain (Js.split Path.sep arg) ->
  In seg (Js.split Path.sep arg) ->
  Js.startsWith seg "." = true ->
  (run (read_note cwd homedir obsidianVaultPath arg) fs
     = (Ok (arg ++ ": Error - Access denied - hidden files/directories not allowed"), fs)
   /\ calls (read_note cwd homedir obsidianVaultPath arg) fs = [])
  /\ (run (obsidian_write_note cwd homedir obsidianVaultPath arg content) fs
        = (Ok {| text := "Please specify the target directory. Available directories:"
                         ++ nl ++ Js.join nl (vaultDirectories cwd homedir obsidianVaultPath);
                 isError := true |}, fs)
      /\ calls (obsidian_write_note cwd homedir obsidianVaultPath arg content) fs = [])
  /\ (run (obsidian_read_notes_dir cwd homedir obsidianVaultPath listDirs arg) fs
        = (Err "Access denied - hidden files/directories not allowed", fs)
      /\ calls (obsidian_read_notes_dir cwd homedir obsidianVaultPath listDirs arg) fs = []).
Proof.
  intros Hplain Hin Hdot.
  assert (Hthrow : validatePath' (Path.join [vault0; arg])
                   = Throw "Access denied - hidden files/directories not allowed").
  { apply validatePath_hidden_throw.
    eapply hasHiddenPart_joined; [exact Hplain|exact Hin|exact Hdot]. }
  unfold read_note, obsidian_write_note, obsidian_read_notes_dir.
  rewrite Hthrow. repeat split; reflexivity.
Qed.

End NewAndHidden.

(** ** The further properties on the vault of the examples *)

Section DemoMore.

Import Normal.

Local Abbreviation demo_validatePath := (validatePath "/" "/home/user" "/vault").
Local Abbreviation demo_isAllowed := (isAllowed "/" "/home/user" "/vault").
Local Abbreviation demo_absolutePath := (absolutePath "/" "/home/user").
Local Abbreviation demo_vault0 := (vaultDirectories_0 "/" "/home/user" "/vault").

Ltac plain_segment := repeat split; first [discriminate | reflexivity].

Lemma validatePath_failure_messages_witness :
  fst (run (demo_validatePath "/vault/nodir/new.md") demo_fs)
    = Err "Parent directory does not exist: /vault/nodir"
  /\ hasHiddenPart "/vault/nodir/new.md" = false
  /\ demo_isAllowed (normalizePath (demo_absolutePath "/vault/nodir/new.md")) = true.
Proof.
  assert (Hrun : fst (run (demo_validatePath "/vault/nodir/new.md") demo_fs)
                 = Err "Parent directory does not exist: /vault/nodir")
    by (vm_compute; reflexivity).
  split; [exact Hrun|].
  destruct (validatePath_failure_messages "/" "/home/user" "/vault" demo_fs
              "/vault/nodir/new.md" Hrun)
    as [[Hhidden _]|[(_ & Hout & _)|(Hhidden & Hin & _)]].
  - vm_compute in Hhidden. discriminate.
  - vm_compute in Hout. discriminate.
  - split; assumption.
Defined.

Lemma validatePath_success_grounds_witness :
  fst (run (demo_validatePath "/vault/link") demo_fs) = Ok "/vault/link"
  /\ exists realParentPath,
       fs_realpath demo_fs (Path.dirname (demo_absolutePath "/vault/link"))
         = Ok realParentPath
       /\ demo_isAllowed (normalizePath realParentPath) = true.
Proof.
  assert (Hrun : fst (run (demo_validatePath "/vault/link") demo_fs) = Ok "/vault/link")
    by (vm_compute; reflexivity).
  split; [exact Hrun|].
  destruct (validatePath_success_grounds "/" "/home/user" "/vault" demo_fs
              "/vault/link" Hrun)
    as (_ & _ & [[Hreal _]|[_ Hparent]]).
  - vm_compute in Hreal. discriminate.
  - exact Hparent.
Defined.

Lemma validatePath_existing_witness :
  fs_realpath demo_fs (demo_absolutePath "/vault/notes/b.md") = Ok "/vault/notes/b.md"
  /\ run (demo_validatePath "/vault/notes/b.md") demo_fs
     = (Ok "/vault/notes/b.md", demo_fs).
Proof.
  split; [vm_compute; reflexivity|].
  apply (validatePath_existing "/" "/home/user" "/vault" demo_fs "/vault/notes/b.md");
    vm_compute; reflexivity.
Defined.

Lemma write_note_success_witness :
  fs_writeFile demo_fs "/vault/a.md" "new text"
    = (Ok tt, ("/vault/a.md", MemFS.File "new text") :: demo_fs)
  /\ run (obsidian_write_note "/" "/home/user" "/vault" "a.md" "new text") demo_fs
     = (Ok {| text := "Note successfully written to a.md"; isError := false |},
        ("/vault/a.md", MemFS.File "new text") :: demo_fs).
Proof.
  split; [vm_compute; reflexivity|].
  apply (write_note_success "/" "/home/user" "/vault" demo_fs "a.md" "new text"
           (validPath := "/vault/a.md")); vm_compute; reflexivity.
Defined.

Lemma write_note_write_failure_witness :
  fs_writeFile demo_fs "/vault/notes" "text"
    = (Err "EISDIR: illegal operation on a directory, open '/vault/notes'", demo_fs)
  /\ run (obsidian_write_note "/" "/home/user" "/vault" "notes" "text") demo_fs
     = (Ok {| text := "Please specify the target directory. Available directories:"
                      ++ nl ++ Js.join nl (vaultDirectories "/" "/home/user" "/vault");
              isError := true |}, demo_fs).
Proof.
  split; [vm_compute; reflexivity|].
  apply (write_note_write_failure "/" "/home/user" "/vault" demo_fs "notes" "text"
           (validPath := "/vault/notes")
           (errorMessage := "EISDIR: illegal operation on a directory, open '/vault/notes'"));
    vm_compute; reflexivity.
Defined.

Lemma read_notes_dir_invalid_path_witness :
  fst (run (demo_validatePath (Path.join [demo_vault0; "../etc"])) demo_fs)
    = Err "Access denied - path outside allowed directories: /etc not in /vault"
  /\ run (call_tool "/" "/home/user" "/vault" (fun _ => Ret []) (fun _ => Ret [])
            (obsidian_read_notes_dir_req "../etc")) demo_fs
     = (Ok {| text := "Error: Access denied - path outside allowed directories: /etc not in /vault";
              isError := true |}, demo_fs).
Proof.
  split; [vm_compute; reflexivity|].
  apply (read_notes_dir_invalid_path "/" "/home/user" "/vault"
           (fun _ => Ret []) (fun _ => Ret []) demo_fs "../etc"
           (errorMessage :=
              "Access denied - path outside allowed directories: /etc not in /vault")).
  vm_compute; reflexivity.
Defined.

Lemma vaultDirectories_normalized_witness :
  Path.isAbsolute "/srv" = true
  /\ exists segs,
       Forall plain segs
       /\ vaultDirectories "/srv" "/home/user" "Notes/../My Vault/" = [rooted segs]
       /\ Js.toLowerCase (rooted segs) = rooted segs
       /\ normalizePath (rooted segs) = rooted segs.
Proof.
  split; [reflexivity|].
  apply (vaultDirectories_normalized "/srv" "/home/user" "Notes/../My Vault/").
  reflexivity.
Defined.

Lemma absolutePath_rooted_witness :
  Path.isAbsolute "/srv" = true
  /\ exists segs,
       Forall plain segs
       /\ absolutePath "/srv" "/home/user" "a//b/../c.md" = rooted segs
       /\ normalizePath (absolutePath "/srv" "/home/user" "a//b/../c.md")
          = Js.toLowerCase (absolutePath "/srv" "/home/user" "a//b/../c.md").
Proof.
  split; [reflexivity|].
  apply (absolutePath_rooted "/srv" "/home/user" "a//b/../c.md"). reflexivity.
Defined.

Lemma expandHome_home_witness :
  Forall plain ["home"; "user"] /\ plain "vault"
  /\ expandHome (rooted ["home"; "user"]) "~" = rooted ["home"; "user"]
  /\ expandHome (rooted ["home"; "user"]) ("~/" ++ "vault")
     = rooted (["home"; "user"] ++ ["vault"])
  /\ ("~user/vault" <> "~" -> Js.startsWith "~user/vault" "~/" = false ->
      expandHome (rooted ["home"; "user"]) "~user/vault" = "~user/vault").
Proof.
  assert (Hhome : Forall plain ["home"; "user"])
    by (repeat constructor; plain_segment).
  assert (Hname : plain "vault") by plain_segment.
  split; [exact Hhome|]. split; [exact Hname|].
  exact (@expandHome_home ["home"; "user"] "vault" "~user/vault" Hhome Hname).
Defined.

Lemma vaultDirectories_of_config_witness :
  Forall plain ["home"; "user"; "Vault"]
  /\ expandHome "/home/user" "~/Vault" = rooted ["home"; "user"; "Vault"]
  /\ vaultDirectories "/srv" "/home/user" "~/Vault"
     = [Js.toLowerCase (expandHome "/home/user" "~/Vault")].
Proof.
  assert (Hsegs : Forall plain ["home"; "user"; "Vault"])
    by (repeat constructor; plain_segment).
  assert (Hcfg : expandHome "/home/user" "~/Vault" = rooted ["home"; "user"; "Vault"])
    by reflexivity.
  split; [exact Hsegs|]. split; [exact Hcfg|].
  exact (@vaultDirectories_of_config "/srv" "/home/user" "~/Vault"
           ["home"; "user"; "Vault"] Hsegs Hcfg).
Defined.

Lemma walks_skip_hidden_entries_witness :
  plain ".obsidian"
  /\ search_entry "/" "/home/user" "/vault" demo_fs no_RegExp "app" "/vault" "/vault"
       [] (Directory ".obsidian" [Other "app.md"]) = []
  /\ listDirs_entry "/" "/home/user" "/vault" demo_fs "/vault"
       [] (Directory ".obsidian" [Other "app.md"]) = [].
Proof.
  assert (Hplain : plain ".obsidian") by plain_segment.
  split; [exact Hplain|].
  destruct (walks_skip_hidden_entries "/" "/home/user" "/vault" demo_fs no_RegExp
              (Directory ".obsidian" [Other "app.md"]) Hplain eq_refl)
    as [Hsearch Hlist].
  split; [apply Hsearch|apply Hlist].
Defined.

Lemma name_matches_substring_witness :
  Js.is_ascii ("Plan " ++ "(A" ++ "lpha).md") = true
  /\ Js.is_ascii "(a" = true
  /\ Js.toLowerCase "(A" = Js.toLowerCase "(a"
  /\ name_matches no_RegExp "(a" ("Plan " ++ "(A" ++ "lpha).md") = true.
Proof.
  split; [reflexivity|]. split; [reflexivity|]. split; [reflexivity|].
  apply (@name_matches_substring no_RegExp "(a" "Plan " "(A" "lpha).md");
    reflexivity.
Defined.

Lemma demo_listing_well_named : Forall well_named demo_listing.
Proof.
  repeat first [ apply Forall_cons | apply Forall_nil
               | apply well_named_Other | apply well_named_Directory
               | apply well_named_Unreadable | plain_segment ].
Qed.

Lemma searchNotes_results_relative_witness :
  searchNotes "/" "/home/user" "/vault" demo_fs no_RegExp demo_readdir "B"
    = Ok ["/notes/b.md"]
  /\ exists segs,
       Forall plain segs /\ demo_vault0 = rooted segs
       /\ forall r,
            In r ["/notes/b.md"] ->
            exists chain x,
              chain_to demo_listing chain x
              /\ Js.endsWith (dirent_name x) ".md" = true
              /\ r = (match segs with [] => EmptyString | _ => "/" end)
                     ++ Js.join "/" chain.
Proof.
  assert (Hsearch :
    searchNotes "/" "/home/user" "/vault" demo_fs no_RegExp demo_readdir "B"
    = Ok ["/notes/b.md"]) by (vm_compute; reflexivity).
  split; [exact Hsearch|].
  apply (searchNotes_results_relative "/" "/home/user" "/vault" demo_fs no_RegExp
           demo_readdir "B" (entries := demo_listing)).
  - reflexivity.
  - vm_compute; reflexivity.
  - exact demo_listing_well_named.
  - exact Hsearch.
Defined.

Lemma listDirs_results_relative_witness :
  listDirs "/" "/home/user" "/vault" demo_fs (Ok demo_listing) (rooted (["vault"] ++ []))
    = Ok ["/notes"; "/locked.md"]
  /\ exists chain x,
       chain_to demo_listing chain x
       /\ dirent_isDirectory x = true
       /\ "/notes" = "/" ++ Js.join "/" ([] ++ chain).
Proof.
  assert (Hlist :
    listDirs "/" "/home/user" "/vault" demo_fs (Ok demo_listing)
      (rooted (["vault"] ++ []))
    = Ok ["/notes"; "/locked.md"]) by (vm_compute; reflexivity).
  split; [exact Hlist|].
  apply (@listDirs_results_relative "/" "/home/user" "/vault" MemFS.t
           memfs_FileSystem demo_fs demo_listing [] ["vault"] ["/notes"; "/locked.md"]).
  - repeat constructor; plain_segment.
  - vm_compute; reflexivity.
  - constructor.
  - exact demo_listing_well_named.
  - exact Hlist.
  - left. reflexivity.
Defined.

Lemma read_notes_dir_tool_outcomes_witness :
  fst (run (demo_validatePath (Path.join [demo_vault0; EmptyString])) demo_fs)
    = Ok "/vault"
  /\ run (call_tool "/" "/home/user" "/vault"
            (fun query =>
               settle (searchNotes "/" "/home/user" "/vault" demo_fs no_RegExp
                         demo_readdir query))
            (fun validPath =>
               settle (listDirs "/" "/home/user" "/vault" demo_fs
                         (demo_readdir validPath) validPath))
            (obsidian_read_notes_dir_req EmptyString)) demo_fs
     = (Ok {| text := Js.join nl
                (fold_left (listDirs_entry "/" "/home/user" "/vault" demo_fs "/vault")
                   demo_listing []);
              isError := false |}, demo_fs).
Proof.
  assert (Hvalid :
    fst (run (demo_validatePath (Path.join [demo_vault0; EmptyString])) demo_fs)
    = Ok "/vault") by (vm_compute; reflexivity).
  split; [exact Hvalid|].
  destruct (@read_notes_dir_tool_outcomes "/" "/home/user" "/vault" MemFS.t
              memfs_FileSystem demo_fs no_RegExp demo_readdir EmptyString "/vault" Hvalid)
    as [_ Hlisted].
  destruct (Hlisted demo_listing eq_refl) as [Hrun _]. exact Hrun.
Defined.

Lemma validatePath_prefix_only_witness :
  Js.toLowerCase (absolutePath "/" "/home/user" "/vault2/secret.md")
    = demo_vault0 ++ "2/secret.md"
  /\ run (demo_validatePath "/vault2/secret.md") demo_fs_sibling
     = (Ok (absolutePath "/" "/home/user" "/vault2/secret.md"), demo_fs_sibling).
Proof.
  assert (Hprefix :
    Js.toLowerCase (absolutePath "/" "/home/user" "/vault2/secret.md")
    = demo_vault0 ++ "2/secret.md") by reflexivity.
  split; [exact Hprefix|].
  apply (@validatePath_prefix_only "/" "/home/user" "/vault" MemFS.t memfs_FileSystem
           demo_fs_sibling "/vault2/secret.md" "2/secret.md");
    [reflexivity|reflexivity|exact Hprefix|vm_compute; reflexivity].
Defined.

Lemma handler_argument_climbs_witness :
  demo_vault0 = rooted ([] ++ ["vault"])
  /\ Path.join [demo_vault0; "../" ++ "vault2/secret.md"]
     = rooted ([] ++ Js.split Path.sep "vault2/secret.md")
  /\ hasHiddenPart (Path.join [demo_vault0; "../" ++ "vault2/secret.md"]) = false.
Proof.
  assert (Hroot : demo_vault0 = rooted ([] ++ ["vault"])) by reflexivity.
  split; [exact Hroot|].
  destruct (@handler_argument_climbs "/" "/home/user" "/vault" [] "vault"
              "vault2/secret.md") as [Hjoin Hhidden].
  - constructor.
  - plain_segment.
  - repeat constructor; plain_segment.
  - exact Hroot.
  - split; [exact Hjoin|]. apply Hhidden. repeat constructor.
Defined.

Lemma validatePath_missing_parent_witness :
  absolutePath "/" "/home/user" "/vault/nodir/new.md"
    = rooted (["vault"; "nodir"] ++ ["new.md"])
  /\ fs_realpath demo_fs (rooted ["vault"; "nodir"])
     = Err "ENOENT: no such file or directory, realpath '/vault/nodir'"
  /\ run (demo_validatePath "/vault/nodir/new.md") demo_fs
     = (Err ("Parent directory does not exist: " ++ rooted ["vault"; "nodir"]), demo_fs).
Proof.
  assert (Habs : absolutePath "/" "/home/user" "/vault/nodir/new.md"
                 = rooted (["vault"; "nodir"] ++ ["new.md"])) by reflexivity.
  assert (Hparent : fs_realpath demo_fs (rooted ["vault"; "nodir"])
                    = Err "ENOENT: no such file or directory, realpath '/vault/nodir'")
    by (vm_compute; reflexivity).
  split; [exact Habs|]. split; [exact Hparent|].
  refine (proj1 (@validatePath_missing_parent "/" "/home/user" "/vault" MemFS.t
                   memfs_FileSystem demo_fs "/vault/nodir/new.md"
                   ["vault"; "nodir"] "new.md" _ _ _ Habs _ _ _ Hparent)).
  - repeat constructor; plain_segment.
  - plain_segment.
  - reflexivity.
  - vm_compute; reflexivity.
  - intros r. vm_compute. discriminate.
Defined.

Lemma hidden_argument_rejected_witness :
  Forall plain (Js.split Path.sep "notes/.drafts/x.md")
  /\ run (read_note "/" "/home/user" "/vault" "notes/.drafts/x.md") demo_fs
     = (Ok ("notes/.drafts/x.md"
            ++ ": Error - Access denied - hidden files/directories not allowed"),
        demo_fs).
Proof.
  assert (Hplain : Forall plain (Js.split Path.sep "notes/.drafts/x.md"))
    by (repeat constructor; plain_segment).
  split; [exact Hplain|].
  refine (proj1 (proj1 (@hidden_argument_rejected "/" "/home/user" "/vault" MemFS.t
                          memfs_FileSystem demo_fs "notes/.drafts/x.md" ".drafts"
                          "text" (fun _ => Ret []) Hplain _ _))).
  - simpl. auto.
  - reflexivity.
Defined.

End DemoMore.
